(** * Joke generator: rate limiter, URL construction and response classification

    A shallow embedding of the two joke-client variants of the repository:

    - the synchronous token-bucket variant
      ([src/joke-generator/lib/rate-limiter.ts] and
      [src/joke-generator/lib/joke-generator.ts]), and
    - the scheduler-backed variant ([src/tools/joke-generator/lib/client.ts]).

    Numbers are modelled as [Z]: timestamps are the integer milliseconds of
    [Date.now()], and token counts, HTTP statuses and joke amounts are
    integers far below 2^53, where JavaScript arithmetic on them is exact.
    Strings are byte strings (the UTF-8 form of the JavaScript string). *)

From Stdlib Require Import ZArith List String Ascii Bool Lia DecimalString.
Import ListNotations.

Local Open Scope Z_scope.

(** ** The token-bucket rate limiter ([src/joke-generator/lib/rate-limiter.ts]) *)

Module RateLimiter.

(** [RateLimiterConfig] and [RateLimiterState] of the variant's [types.ts]. *)
Record RateLimiterConfig : Type := mkConfig {
  maxRequests : Z;
  windowMs : Z
}.

Record RateLimiterState : Type := mkState {
  tokens : Z;
  lastRefill : Z
}.

(** The object: its two private fields. *)
Record t : Type := mk {
  state : RateLimiterState;
  config : RateLimiterConfig
}.

(** Every method reads the clock exactly once; the reading is the argument
    [now] of its model. *)

Definition constructor (cfg : RateLimiterConfig) (now : Z) : t :=
  {| config := cfg;
     state := {| tokens := maxRequests cfg; lastRefill := now |} |}.

Definition refill (now : Z) (l : t) : t :=
  let timePassed := now - lastRefill (state l) in
  if timePassed >=? windowMs (config l) then
    {| state := {| tokens := maxRequests (config l); lastRefill := now |};
       config := config l |}
  else l.

Definition tryConsume (now : Z) (l : t) : bool * t :=
  let l1 := refill now l in
  if tokens (state l1) >? 0 then
    (true,
     {| state := {| tokens := tokens (state l1) - 1;
                    lastRefill := lastRefill (state l1) |};
        config := config l1 |})
  else (false, l1).

Definition getAvailableTokens (now : Z) (l : t) : Z * t :=
  let l1 := refill now l in
  (tokens (state l1), l1).

(** [getTimeUntilRefill] does not call [refill] and leaves the object as it is. *)
Definition getTimeUntilRefill (now : Z) (l : t) : Z :=
  let timeSinceRefill := now - lastRefill (state l) in
  Z.max 0 (windowMs (config l) - timeSinceRefill).

Definition createDefaultRateLimiter (now : Z) : t :=
  constructor {| maxRequests := 10; windowMs := 60 * 1000 |} now.

(** *** Runs of the limiter *)

(** The object after [k] calls of [tryConsume], all reading the clock value
    [now]. *)
Fixpoint consumed (k : nat) (now : Z) (l : t) : t :=
  match k with
  | O => l
  | S k' => snd (tryConsume now (consumed k' now l))
  end.

(** The three public operations, and what one call does to the object. *)
Inductive op : Type := TryConsume | GetAvailableTokens | GetTimeUntilRefill.

Definition step (o : op) (now : Z) (l : t) : t :=
  match o with
  | TryConsume => snd (tryConsume now l)
  | GetAvailableTokens => snd (getAvailableTokens now l)
  | GetTimeUntilRefill => l
  end.

(** All the objects a sequence of calls goes through, the first one
    included; each call comes with its clock reading. *)
Fixpoint states (calls : list (op * Z)) (l : t) : list t :=
  l :: match calls with
       | [] => []
       | (o, now) :: rest => states rest (step o now l)
       end.

(** The rate budget invariant. *)
Definition budget_ok (l : t) : Prop :=
  0 <= tokens (state l) <= maxRequests (config l).

Fixpoint nondecreasing (ts : list Z) : Prop :=
  match ts with
  | x :: (y :: _) as rest => x <= y /\ nondecreasing rest
  | _ => True
  end.

(** The object a sequence of calls ends in. *)
Fixpoint run (calls : list (op * Z)) (l : t) : t :=
  match calls with
  | [] => l
  | (o, now) :: rest => run rest (step o now l)
  end.

(** How many of the calls are [tryConsume], and how many of those are
    granted. *)
Fixpoint attempts (calls : list (op * Z)) : nat :=
  match calls with
  | [] => O
  | (TryConsume, _) :: rest => S (attempts rest)
  | _ :: rest => attempts rest
  end.

Fixpoint grants (calls : list (op * Z)) (l : t) : nat :=
  match calls with
  | [] => O
  | (o, now) :: rest =>
      match o with
      | TryConsume => if fst (tryConsume now l) then S (grants rest (step o now l))
                      else grants rest (step o now l)
      | _ => grants rest (step o now l)
      end
  end.

(** All the readings of a sequence of calls fall before the window that
    opened at [t0] closes. *)
Definition within_window (t0 W : Z) (calls : list (op * Z)) : Prop :=
  Forall (fun c => snd c - t0 < W) calls.

End RateLimiter.

(** ** JavaScript values used by the clients *)

Module JS.
Local Open Scope string_scope.

(** The line break written [\n] in the sources. *)
Definition LF : string := String "010"%char EmptyString.

(** Truthiness of a string: every string but the empty one. *)
Definition truthy (s : string) : bool :=
  match s with
  | EmptyString => false
  | String _ _ => true
  end.

(** [o || d] for an optional string [o]: [undefined] and the empty string
    give [d]. *)
Definition or_else (o : option string) (d : string) : string :=
  match o with
  | Some s => if truthy s then s else d
  | None => d
  end.

(** [Array.prototype.join]. *)
Definition join (sep : string) (l : list string) : string := String.concat sep l.

(** [Number.prototype.toString] on an integer. *)
Definition toString (z : Z) : string := NilZero.string_of_int (Z.to_int z).

(** An undefined value inside a template literal prints as [undefined]. *)
Definition template (o : option string) : string :=
  match o with
  | Some s => s
  | None => "undefined"
  end.

(** What a promise can reject with: an [Error] object (with its [name] and
    [message]) or some other value. *)
Inductive Rejection : Type :=
| RejError (name message : string)
| RejOther.

(** The part of a [fetch] response the clients look at. [ok] is how the
    Fetch standard derives it from the status. *)
Record Response (Data : Type) : Type := mkResponse {
  status : Z;
  json : Rejection + Data
}.
Arguments mkResponse {Data}.
Arguments status {Data}.
Arguments json {Data}.

Definition ok {Data} (r : Response Data) : bool :=
  ((200 <=? status r) && (status r <=? 299))%Z.

End JS.

(** ** [URLSearchParams], as the URL standard defines it *)

Module URLSearchParams.
Local Open Scope string_scope.

Definition t : Type := list (string * string).

Definition empty : t := [].

Definition append (name value : string) (p : t) : t := (p ++ [(name, value)])%list.

Fixpoint get (name : string) (p : t) : option string :=
  match p with
  | [] => None
  | (k, v) :: rest => if String.eqb k name then Some v else get name rest
  end.

(** A parameter whose value is not the empty string. *)
Definition value_given (kv : string * string) : bool := JS.truthy (snd kv).

Definition hex (n : N) : ascii :=
  if (n <? 10)%N then ascii_of_N (48 + n) else ascii_of_N (55 + n).

(** Bytes the application/x-www-form-urlencoded serializer leaves alone:
    ASCII letters and digits and the four characters [*-._]. *)
Definition unreserved (c : ascii) : bool :=
  let n := N_of_ascii c in
  ((48 <=? n) && (n <=? 57) || (65 <=? n) && (n <=? 90) ||
   (97 <=? n) && (n <=? 122) ||
   (n =? 42) || (n =? 45) || (n =? 46) || (n =? 95))%N.

Definition encode_byte (c : ascii) : string :=
  if unreserved c then String c EmptyString
  else if (N_of_ascii c =? 32)%N then "+"
  else String "%" (String (hex (N_of_ascii c / 16))
                    (String (hex (N_of_ascii c mod 16)) EmptyString)).

Fixpoint encode (s : string) : string :=
  match s with
  | EmptyString => EmptyString
  | String c rest => encode_byte c ++ encode rest
  end.

Definition toString (p : t) : string :=
  String.concat "&" (map (fun kv => encode (fst kv) ++ "=" ++ encode (snd kv)) p).

End URLSearchParams.

(** ** Declarations both [types.ts] files share *)

Module JokeTypes.
Local Open Scope string_scope.

Inductive JokeType : Type := single | twopart.

Definition JokeType_string (t : JokeType) : string :=
  match t with
  | single => "single"
  | twopart => "twopart"
  end.

Record JokeFlags : Type := mkFlags {
  nsfw : bool;
  religious : bool;
  political : bool;
  racist : bool;
  sexist : bool;
  explicit : bool
}.

(** [keyof JokeFlags]. *)
Inductive JokeFlagKey : Type :=
| key_nsfw | key_religious | key_political | key_racist | key_sexist | key_explicit.

Definition JokeFlagKey_string (k : JokeFlagKey) : string :=
  match k with
  | key_nsfw => "nsfw"
  | key_religious => "religious"
  | key_political => "political"
  | key_racist => "racist"
  | key_sexist => "sexist"
  | key_explicit => "explicit"
  end.

End JokeTypes.

(** ** The scheduler-backed client ([src/tools/joke-generator/lib/client.ts]) *)

Module JokeApiClient.
Import JokeTypes.
Local Open Scope string_scope.

(** *** Its [types.ts] *)

Inductive JokeCategory : Type :=
| Programming | Misc | Dark | Pun | Spooky | Christmas | Any.

Definition JokeCategory_string (c : JokeCategory) : string :=
  match c with
  | Programming => "Programming"
  | Misc => "Misc"
  | Dark => "Dark"
  | Pun => "Pun"
  | Spooky => "Spooky"
  | Christmas => "Christmas"
  | Any => "Any"
  end.

Record BaseJoke : Type := mkBase {
  error : bool;
  category : JokeCategory;
  flags : JokeFlags;
  id : Z;
  safe : bool;
  lang : string
}.

(** [Joke = SingleJoke | TwoPartJoke]; the literal [type] field of each
    interface is the constructor. *)
Inductive Joke : Type :=
| SingleJoke (base : BaseJoke) (joke : string)
| TwoPartJoke (base : BaseJoke) (setup delivery : string).

Definition base_of (j : Joke) : BaseJoke :=
  match j with
  | SingleJoke b _ => b
  | TwoPartJoke b _ _ => b
  end.

Definition type_of (j : Joke) : JokeType :=
  match j with
  | SingleJoke _ _ => single
  | TwoPartJoke _ _ _ => twopart
  end.

(** [JokeApiError]; its [error] field has the literal type [true]. *)
Record JokeApiError : Type := mkApiError {
  internalError : bool;
  code : Z;
  message : string;
  causedBy : list string;
  additionalInfo : string;
  timestamp : Z
}.

Record JokeFetchOptions : Type := mkOptions {
  opt_category : option (JokeCategory + list JokeCategory);
  opt_lang : option string;
  opt_blacklistFlags : option (list JokeFlagKey);
  opt_type : option JokeType;
  opt_contains : option string;
  opt_amount : option Z;
  opt_timeout : option Z
}.

(** The options object [{}]. *)
Definition no_options : JokeFetchOptions :=
  mkOptions None None None None None None None.

(** What [response.json()] resolves to: an error envelope, a joke, or an
    array of jokes. *)
Inductive Data : Type :=
| DataError (e : JokeApiError)
| DataJoke (j : Joke)
| DataJokes (js : list Joke).

(** *** The error classes *)

Inductive Thrown : Type :=
| JokeApiClientError (message : string) (code : option Z) (causedBy : option (list string))
| JokeApiTimeoutError (message : string)
| Raw (r : JS.Rejection).

(** The [name] the constructor of each class sets. *)
Definition name (e : Thrown) : string :=
  match e with
  | JokeApiClientError _ _ _ => "JokeApiClientError"
  | JokeApiTimeoutError _ => "JokeApiTimeoutError"
  | Raw (JS.RejError n _) => n
  | Raw JS.RejOther => EmptyString
  end.

(** *** [buildUrl] *)

Definition build_params (options : JokeFetchOptions) : URLSearchParams.t :=
  let params := URLSearchParams.empty in
  let params :=
    match opt_lang options with
    | Some l => if JS.truthy l then URLSearchParams.append "lang" l params else params
    | None => params
    end in
  let params :=
    match opt_blacklistFlags options with
    | Some fl =>
        if (Z.of_nat (List.length fl) >? 0)%Z
        then URLSearchParams.append "blacklistFlags"
               (JS.join "," (map JokeFlagKey_string fl)) params
        else params
    | None => params
    end in
  let params :=
    match opt_type options with
    | Some t =>
        if JS.truthy (JokeType_string t)
        then URLSearchParams.append "type" (JokeType_string t) params
        else params
    | None => params
    end in
  let params :=
    match opt_contains options with
    | Some c => if JS.truthy c then URLSearchParams.append "contains" c params else params
    | None => params
    end in
  let params :=
    match opt_amount options with
    | Some a =>
        if negb (a =? 0)%Z && (a >? 1)%Z && (a <=? 10)%Z
        then URLSearchParams.append "amount" (JS.toString a) params
        else params
    | None => params
    end in
  params.

Definition categories_segment (options : JokeFetchOptions) : string :=
  match opt_category options with
  | Some (inr cs) => JS.join "," (map JokeCategory_string cs)
  | Some (inl c) => JS.or_else (Some (JokeCategory_string c)) "Any"
  | None => "Any"
  end.

Definition buildUrl (baseUrl : string) (options : JokeFetchOptions) : string :=
  let categories := categories_segment options in
  let queryString := URLSearchParams.toString (build_params options) in
  baseUrl ++ "/joke/" ++ categories ++
    (if JS.truthy queryString then "?" ++ queryString else EmptyString).

(** *** [parseResponse] *)

(** [data.error === true]. *)
Definition data_error (d : Data) : bool :=
  match d with
  | DataError _ => true
  | DataJoke j => error (base_of j)
  | DataJokes _ => false
  end.

(** The fields the cast [data as JokeApiError] reads; a joke has none of
    them. *)
Definition data_message (d : Data) : option string :=
  match d with DataError e => Some (message e) | _ => None end.

Definition data_code (d : Data) : option Z :=
  match d with DataError e => Some (code e) | _ => None end.

Definition data_causedBy (d : Data) : option (list string) :=
  match d with DataError e => Some (causedBy e) | _ => None end.

Definition parseResponse (response : JS.Response Data) : Thrown + Data :=
  if negb (JS.ok response) then
    inl (JokeApiClientError
           ("HTTP error! status: " ++ JS.toString (JS.status response))
           (Some (JS.status response)) None)
  else
    match JS.json response with
    | inl r => inl (Raw r)
    | inr data =>
        if data_error data then
          inl (JokeApiClientError
                 (JS.or_else (data_message data) "API returned an error")
                 (data_code data) (data_causedBy data))
        else inr data
    end.

(** *** [formatJoke] *)

Definition formatJoke (joke : Joke) : string :=
  match joke with
  | SingleJoke _ text => text
  | TwoPartJoke _ setup delivery => setup ++ JS.LF ++ delivery
  end.

(** *** The constructor *)

(** [RateLimiterConfig] and [JokeGeneratorConfig] of this variant's
    [types.ts]. *)
Record RateLimiterConfig : Type := mkLimiterConfig {
  maxRequests : Z;
  intervalMs : Z
}.

Record JokeGeneratorConfig : Type := mkConfig {
  cfg_baseUrl : option string;
  cfg_defaultTimeout : option Z;
  cfg_rateLimiter : option RateLimiterConfig
}.

(** The three private fields; the rate limiter is kept as the
    configuration its Bottleneck instance is built from. *)
Record Client : Type := mkClient {
  baseUrl : string;
  defaultTimeout : Z;
  rateLimiter : RateLimiterConfig
}.

(** [o || d] for an optional number [o]: [undefined] and 0 give [d]. *)
Definition num_or (o : option Z) (d : Z) : Z :=
  match o with
  | Some z => if (z =? 0)%Z then d else z
  | None => d
  end.

Definition constructor (config : JokeGeneratorConfig) : Client :=
  {| baseUrl := JS.or_else (cfg_baseUrl config) "https://v2.jokeapi.dev";
     defaultTimeout := num_or (cfg_defaultTimeout config) 5000;
     rateLimiter :=
       match cfg_rateLimiter config with
       | Some c => c
       | None => {| maxRequests := 10; intervalMs := 60000 |}
       end |}.

(** *** [fetchWithTimeout] and the job of [getJoke] *)


(** The timeout [getJoke] passes on. *)
Definition getJoke_timeout (client : Client) (options : JokeFetchOptions) : Z :=
  num_or (opt_timeout options) (defaultTimeout client).


(** *** The convenience methods *)


(** The options [getRandomJoke] and [getProgrammingJoke] pass to [getJoke]. *)
Definition getRandomJoke_options : JokeFetchOptions :=
  mkOptions (Some (inl Any)) None None None None None None.

Definition getProgrammingJoke_options (safe : bool) : JokeFetchOptions :=
  mkOptions (Some (inl Programming)) None
    (if safe
     then Some [key_nsfw; key_religious; key_political; key_racist; key_sexist;
                key_explicit]
     else None)
    None None None None.

Definition getAvailableCategories : list JokeCategory :=
  [Programming; Misc; Dark; Pun; Spooky; Christmas; Any].



End JokeApiClient.

(** ** The token-bucket client ([src/joke-generator/lib/joke-generator.ts]) *)

Module JokeGenerator.
Import JokeTypes.
Local Open Scope string_scope.

(** *** Its [types.ts] *)

Inductive JokeCategory : Type :=
| Programming | Misc | Dark | Pun | Spooky | Christmas.

Definition JokeCategory_string (c : JokeCategory) : string :=
  match c with
  | Programming => "Programming"
  | Misc => "Misc"
  | Dark => "Dark"
  | Pun => "Pun"
  | Spooky => "Spooky"
  | Christmas => "Christmas"
  end.

Record JokeResponse : Type := mkJoke {
  error : bool;
  category : JokeCategory;
  type : JokeType;
  joke : option string;
  setup : option string;
  delivery : option string;
  flags : JokeFlags;
  id : Z;
  safe : bool;
  lang : string
}.

Record JokeErrorResponse : Type := mkErrorResponse {
  err_error : bool;
  internalError : bool;
  code : Z;
  message : string;
  causedBy : list string;
  additionalInfo : option string;
  timestamp : Z
}.

Record JokeOptions : Type := mkOptions {
  opt_categories : option (list JokeCategory);
  opt_blacklistFlags : option (list JokeFlagKey);
  opt_type : option JokeType;
  opt_searchString : option string;
  opt_lang : option string;
  opt_amount : option Z
}.

(** The options object [{}]. *)
Definition no_options : JokeOptions := mkOptions None None None None None None.

(** What [response.json()] resolves to: an error envelope, a joke, or the
    object with a [jokes] array the service sends for an amount above 1. *)
Inductive Data : Type :=
| DataError (e : JokeErrorResponse)
| DataJoke (j : JokeResponse)
| DataBatch (error : bool) (amount : Z) (jokes : list JokeResponse).

Definition JOKE_API_BASE_URL : string := "https://v2.jokeapi.dev/joke".

Definition DEFAULT_SAFE_CATEGORIES : list JokeCategory := [Programming; Misc; Pun].

(** *** The error classes *)

(** [RateLimitError], [JokeAPIError], and any other thrown value; a plain
    [Error] is the [Error] object of that name. *)
Inductive Thrown : Type :=
| RateLimitError (message : string) (retryAfter : Z)
| JokeAPIError (message : string) (code : option Z) (causedBy : option (list string))
| Other (r : JS.Rejection).

Definition Error (message : string) : Thrown := Other (JS.RejError "Error" message).

(** *** [buildUrl] *)

Definition build_params (options : JokeOptions) : URLSearchParams.t :=
  let params := URLSearchParams.empty in
  let params :=
    match opt_blacklistFlags options with
    | Some fl =>
        if (Z.of_nat (List.length fl) >? 0)%Z
        then URLSearchParams.append "blacklistFlags"
               (JS.join "," (map JokeFlagKey_string fl)) params
        else params
    | None => params
    end in
  let params :=
    match opt_type options with
    | Some t =>
        if JS.truthy (JokeType_string t)
        then URLSearchParams.append "type" (JokeType_string t) params
        else params
    | None => params
    end in
  let params :=
    match opt_searchString options with
    | Some s => if JS.truthy s then URLSearchParams.append "contains" s params else params
    | None => params
    end in
  let params :=
    match opt_lang options with
    | Some l => if JS.truthy l then URLSearchParams.append "lang" l params else params
    | None => params
    end in
  let params :=
    match opt_amount options with
    | Some a =>
        if negb (a =? 0)%Z then
          let amount := Z.max 1 (Z.min 10 a) in
          URLSearchParams.append "amount" (JS.toString amount) params
        else params
    | None => params
    end in
  let params :=
    match opt_blacklistFlags options with
    | Some _ => params
    | None => URLSearchParams.append "safe-mode" "true" params
    end in
  params.

Definition categories_segment (options : JokeOptions) : string :=
  JS.or_else
    (option_map (fun cs => JS.join "," (map JokeCategory_string cs))
                (opt_categories options))
    (JS.join "," (map JokeCategory_string DEFAULT_SAFE_CATEGORIES)).

Definition buildUrl (apiBaseUrl : string) (options : JokeOptions) : string :=
  let categories := categories_segment options in
  let url := apiBaseUrl ++ "/" ++ categories in
  let queryString := URLSearchParams.toString (build_params options) in
  if JS.truthy queryString then url ++ "?" ++ queryString else url.

(** *** The effects of a call *)

(** The surroundings of a call: what the successive readings of
    [Date.now()] give, and what [fetch] answers for a URL. *)
Record Env : Type := mkEnv {
  clock : nat -> Z;
  network : string -> JS.Rejection + JS.Response Data
}.

Inductive Event : Type :=
| DateNow (t : Z)
| Fetch (url : string).

(** The mutable part: the generator's rate limiter, the number of clock
    readings so far, and the effects performed so far, oldest first. *)
Record World : Type := mkWorld {
  rateLimiter : RateLimiter.t;
  ticks : nat;
  effects : list Event
}.

Definition M (A : Type) : Type := World -> (Thrown + A) * World.

Definition ret {A} (a : A) : M A := fun w => (inr a, w).

Definition throw {A} (e : Thrown) : M A := fun w => (inl e, w).

Definition bind {A B} (m : M A) (k : A -> M B) : M B :=
  fun w =>
    match m w with
    | (inr a, w') => k a w'
    | (inl e, w') => (inl e, w')
    end.

Definition try_catch {A} (m : M A) (handler : Thrown -> M A) : M A :=
  fun w =>
    match m w with
    | (inr a, w') => (inr a, w')
    | (inl e, w') => handler e w'
    end.

Notation "x <- m ;; k" := (bind m (fun x => k))
  (at level 61, m at next level, right associativity).

Definition Date_now (env : Env) : M Z :=
  fun w =>
    let t := clock env (ticks w) in
    (inr t, {| rateLimiter := rateLimiter w;
               ticks := S (ticks w);
               effects := (effects w ++ [DateNow t])%list |}).

Definition rateLimiter_tryConsume (env : Env) : M bool :=
  now <- Date_now env ;;
  fun w =>
    let r := RateLimiter.tryConsume now (rateLimiter w) in
    (inr (fst r), {| rateLimiter := snd r; ticks := ticks w; effects := effects w |}).

Definition rateLimiter_getTimeUntilRefill (env : Env) : M Z :=
  now <- Date_now env ;;
  fun w => (inr (RateLimiter.getTimeUntilRefill now (rateLimiter w)), w).

Definition fetch (env : Env) (url : string) : M (JS.Response Data) :=
  fun w =>
    let w' := {| rateLimiter := rateLimiter w;
                 ticks := ticks w;
                 effects := (effects w ++ [Fetch url])%list |} in
    match network env url with
    | inl r => (inl (Other r), w')
    | inr response => (inr response, w')
    end.

Definition response_json (response : JS.Response Data) : M Data :=
  match JS.json response with
  | inl r => throw (Other r)
  | inr data => ret data
  end.

(** [Math.ceil(retryAfter / 1000)]. *)
Definition ceil_seconds (retryAfter : Z) : Z := (- ((- retryAfter) / 1000))%Z.

(** *** [fetchJoke] *)

(** [data.error === true], and the fields the cast
    [data as JokeErrorResponse] reads. *)
Definition data_error (d : Data) : bool :=
  match d with
  | DataError e => err_error e
  | DataJoke j => error j
  | DataBatch e _ _ => e
  end.

Definition data_message (d : Data) : option string :=
  match d with DataError e => Some (message e) | _ => None end.

Definition data_code (d : Data) : option Z :=
  match d with DataError e => Some (code e) | _ => None end.

Definition data_causedBy (d : Data) : option (list string) :=
  match d with DataError e => Some (causedBy e) | _ => None end.

Definition fetchJoke (env : Env) (apiBaseUrl : string) (options : JokeOptions) : M Data :=
  granted <- rateLimiter_tryConsume env ;;
  if negb granted then
    retryAfter <- rateLimiter_getTimeUntilRefill env ;;
    throw (RateLimitError
             ("Rate limit exceeded. Please try again in " ++
              JS.toString (ceil_seconds retryAfter) ++ " seconds.")
             retryAfter)
  else
    let url := buildUrl apiBaseUrl options in
    try_catch
      (response <- fetch env url ;;
       if negb (JS.ok response) then
         throw (Error ("HTTP error! status: " ++ JS.toString (JS.status response)))
       else
         data <- response_json response ;;
         if data_error data then
           throw (JokeAPIError
                    (JS.or_else (data_message data) "Unknown API error")
                    (data_code data) (data_causedBy data))
         else ret data)
      (fun error =>
         match error with
         | JokeAPIError _ _ _ | RateLimitError _ _ => throw error
         | Other r =>
             throw (Error ("Failed to fetch joke: " ++
                           match r with
                           | JS.RejError _ m => m
                           | JS.RejOther => "Unknown error"
                           end))
         end).

(** *** [getRandomJoke] *)

(** The fields of a joke as read from the returned object; an error
    envelope or a batch object has none of them. *)
Definition data_type (d : Data) : option JokeType :=
  match d with DataJoke j => Some (type j) | _ => None end.

Definition data_joke (d : Data) : option string :=
  match d with DataJoke j => joke j | _ => None end.

Definition data_setup (d : Data) : option string :=
  match d with DataJoke j => setup j | _ => None end.

Definition data_delivery (d : Data) : option string :=
  match d with DataJoke j => delivery j | _ => None end.

(** The [if]/[else] that turns the fetched joke into a string. *)
Definition format (joke : Data) : string :=
  match data_type joke with
  | Some single => JS.or_else (data_joke joke) EmptyString
  | _ => JS.template (data_setup joke) ++ JS.LF ++ JS.template (data_delivery joke)
  end.

Definition getRandomJoke (env : Env) (apiBaseUrl : string) (options : JokeOptions)
  : M string :=
  joke <- fetchJoke env apiBaseUrl options ;;
  ret (format joke).

(** *** [getMultipleJokes] *)

(** The options object [{ ...options, amount }]. *)
Definition with_amount (options : JokeOptions) (amount : Z) : JokeOptions :=
  mkOptions (opt_categories options) (opt_blacklistFlags options) (opt_type options)
            (opt_searchString options) (opt_lang options) (Some amount).

Definition getMultipleJokes (env : Env) (apiBaseUrl : string) (count : Z)
  (options : JokeOptions) : M (list string) :=
  let amount := Z.max 1 (Z.min 10 count) in
  response <- fetchJoke env apiBaseUrl (with_amount options amount) ;;
  match response with
  | DataBatch _ _ jokes => ret (map (fun joke => format (DataJoke joke)) jokes)
  | _ => ret [format response]
  end.

(** *** [getRateLimitStatus] *)

Definition rateLimiter_getAvailableTokens (env : Env) : M Z :=
  now <- Date_now env ;;
  fun w =>
    let r := RateLimiter.getAvailableTokens now (rateLimiter w) in
    (inr (fst r), {| rateLimiter := snd r; ticks := ticks w; effects := effects w |}).

Definition getRateLimitStatus (env : Env) : M (Z * Z) :=
  availableTokens <- rateLimiter_getAvailableTokens env ;;
  timeUntilRefill <- rateLimiter_getTimeUntilRefill env ;;
  ret (availableTokens, timeUntilRefill).

(** *** The module-level [getRandomJoke] and its singleton *)

(** The module state: [defaultGenerator], which is [null] or a generator
    made by [createJokeGenerator] (whose only mutable part is its rate
    limiter), with the clock readings and effects so far. *)
Record Process : Type := mkProcess {
  defaultGenerator : option RateLimiter.t;
  p_ticks : nat;
  p_effects : list Event
}.

(** [createJokeGenerator()]: the default rate limiter is constructed, which
    reads the clock once; the base URL is [JOKE_API_BASE_URL]. *)
Definition createJokeGenerator (env : Env) (ticks0 : nat) (effects0 : list Event) : World :=
  let t := clock env ticks0 in
  {| rateLimiter := RateLimiter.createDefaultRateLimiter t;
     ticks := S ticks0;
     effects := (effects0 ++ [DateNow t])%list |}.

Definition default_getRandomJoke (env : Env) (options : JokeOptions) (p : Process)
  : (Thrown + string) * Process :=
  let w :=
    match defaultGenerator p with
    | None => createJokeGenerator env (p_ticks p) (p_effects p)
    | Some l => {| rateLimiter := l; ticks := p_ticks p; effects := p_effects p |}
    end in
  let r := getRandomJoke env JOKE_API_BASE_URL options w in
  (fst r,
   {| defaultGenerator := Some (rateLimiter (snd r));
      p_ticks := ticks (snd r);
      p_effects := effects (snd r) |}).

(** *** Sequences of calls *)

(** The world after one [fetchJoke] per options value of the list. *)
Fixpoint fetch_all (env : Env) (apiBaseUrl : string) (calls : list JokeOptions)
  (w : World) : World :=
  match calls with
  | [] => w
  | o :: rest => fetch_all env apiBaseUrl rest (snd (fetchJoke env apiBaseUrl o w))
  end.

(** The module state after one module-level [getRandomJoke] per options value. *)
Fixpoint default_all (env : Env) (calls : list JokeOptions) (p : Process) : Process :=
  match calls with
  | [] => p
  | o :: rest => default_all env rest (snd (default_getRandomJoke env o p))
  end.

(** The outbound requests among some effects. *)
Fixpoint fetches (es : list Event) : nat :=
  match es with
  | [] => O
  | Fetch _ :: rest => S (fetches rest)
  | DateNow _ :: rest => fetches rest
  end.

End JokeGenerator.

(** ** Helpers for statements about query strings *)

Module Query.

(** How often a character occurs in a string. *)
Fixpoint count_char (c : ascii) (s : string) : nat :=
  match s with
  | EmptyString => O
  | String x rest => if Ascii.eqb x c then S (count_char c rest) else count_char c rest
  end.

(** [xs] can be got from [ys] by leaving elements out. *)
Fixpoint subsequence (xs ys : list string) : bool :=
  match ys with
  | [] => match xs with [] => true | _ :: _ => false end
  | y :: ys' =>
      match xs with
      | [] => true
      | x :: xs' => if String.eqb x y then subsequence xs' ys' else subsequence xs ys'
      end
  end.

End Query.

(** ** Statements and sample values *)

Module Samples.
Import RateLimiter JokeTypes.
Local Open Scope string_scope.

(** What "exactly the first [N] calls are granted" says of a limiter
    constructed at time [t0] with capacity [N] and window [W], all calls
    reading the clock value [t0]. *)
Definition exactly_capacity_granted (N W t0 : Z) : Prop :=
  let fresh := constructor (mkConfig N W) t0 in
  (forall k : nat, Z.of_nat k < N ->
     tryConsume t0 (consumed k t0 fresh) = (true, consumed (S k) t0 fresh) /\
     tokens (state (consumed (S k) t0 fresh)) =
       tokens (state (consumed k t0 fresh)) - 1) /\
  (forall k : nat, N <= Z.of_nat k ->
     tryConsume t0 (consumed k t0 fresh) = (false, consumed k t0 fresh)).

Definition sample_flags : JokeFlags := mkFlags false false false false false false.

Definition sample_client_error : JokeApiClient.JokeApiError :=
  JokeApiClient.mkApiError false 106 "No matching joke found"
    ["No jokes were found that match your provided filter(s)."] EmptyString 0.

Definition sample_generator_error : JokeGenerator.JokeErrorResponse :=
  JokeGenerator.mkErrorResponse true false 106 "No matching joke found"
    ["No jokes were found that match your provided filter(s)."] None 0.

Definition sample_base : JokeApiClient.BaseJoke :=
  JokeApiClient.mkBase false JokeApiClient.Programming sample_flags 1 true "en".

End Samples.

(** ** Properties of the token-bucket rate limiter *)

Module RateLimiterFacts.
Import RateLimiter.

Lemma refill_config now l : config (refill now l) = config l.
Proof. unfold refill. destruct (_ >=? _); reflexivity. Qed.

Lemma refill_expired now l :
  now - lastRefill (state l) >= windowMs (config l) ->
  refill now l =
    {| state := {| tokens := maxRequests (config l); lastRefill := now |};
       config := config l |}.
Proof.
  intros H. unfold refill.
  destruct (Z.geb_spec (now - lastRefill (state l)) (windowMs (config l)));
    [reflexivity | lia].
Qed.

Lemma refill_pending now l :
  now - lastRefill (state l) < windowMs (config l) ->
  refill now l = l.
Proof.
  intros H. unfold refill.
  destruct (Z.geb_spec (now - lastRefill (state l)) (windowMs (config l)));
    [lia | reflexivity].
Qed.

(** Within the window of a fresh limiter the [k]-th object is known. *)
Lemma consumed_fresh N W t0 (k : nat) :
  0 < W -> Z.of_nat k <= N ->
  consumed k t0 (constructor (mkConfig N W) t0) =
    mk (mkState (N - Z.of_nat k) t0) (mkConfig N W).
Proof.
  intros HW. induction k as [|k IH]; intros Hk.
  - simpl. unfold constructor. simpl. f_equal. f_equal. lia.
  - cbn [consumed]. rewrite IH by lia.
    unfold tryConsume. rewrite refill_pending by (simpl; lia).
    cbn [state tokens config lastRefill].
    destruct (Z.gtb_spec (N - Z.of_nat k) 0); [|lia].
    cbn [snd]. f_equal. f_equal. lia.
Qed.

Lemma consumed_exhausted N W t0 (k : nat) :
  0 < W -> 0 <= N -> N <= Z.of_nat k ->
  consumed k t0 (constructor (mkConfig N W) t0) =
    mk (mkState 0 t0) (mkConfig N W).
Proof.
  intros HW HN. induction k as [|k IH]; intros Hk.
  - rewrite consumed_fresh by lia. f_equal. f_equal. lia.
  - cbn [consumed].
    destruct (Z.eq_dec N (Z.of_nat (S k))) as [E|E].
    + assert (Hk' : Z.of_nat k <= N) by lia.
      rewrite (consumed_fresh N W t0 k HW Hk').
      unfold tryConsume. rewrite refill_pending by (simpl; lia).
      cbn [state tokens config lastRefill].
      destruct (Z.gtb_spec (N - Z.of_nat k) 0); [|lia].
      cbn [snd]. f_equal. f_equal. lia.
    + rewrite IH by lia.
      unfold tryConsume. rewrite refill_pending by (simpl; lia).
      reflexivity.
Qed.

End RateLimiterFacts.

Section TokenBucket.
Import RateLimiter RateLimiterFacts Samples.

(** C1 (as amended): for every capacity N >= 1 and every window duration
    W > 0, on a freshly constructed limiter with no time elapsing, exactly
    the first N calls of tryConsume are granted, each taking one token, and
    the (N+1)-th and every later call is denied and leaves the object as it
    is. *)
Theorem tryConsume_exactly_capacity (N W t0 : Z) :
  1 <= N -> 0 < W -> exactly_capacity_granted N W t0.
Proof.
  intros HN HW. split.
  - intros k Hk.
    assert (Hgrant : fst (tryConsume t0 (consumed k t0 (constructor (mkConfig N W) t0))) = true).
    { rewrite consumed_fresh by lia.
      unfold tryConsume. rewrite refill_pending by (simpl; lia).
      cbn [state tokens]. destruct (Z.gtb_spec (N - Z.of_nat k) 0); [reflexivity | lia]. }
    split.
    + cbn [consumed]. rewrite <- Hgrant. apply surjective_pairing.
    + rewrite !consumed_fresh by lia. simpl. lia.
  - intros k Hk. rewrite consumed_exhausted by lia.
    unfold tryConsume. rewrite refill_pending by (simpl; lia). reflexivity.
Qed.

Lemma tryConsume_exactly_capacity_witness :
  1 <= 3 /\ 0 < 1000 /\ exactly_capacity_granted 3 1000 0.
Proof.
  split; [lia | split; [lia | apply (tryConsume_exactly_capacity 3 1000 0); lia]].
Defined.

(** With a window of duration 0 every call refills first, so the second
    call on a fresh limiter of capacity 1 is granted too. *)
Lemma zero_window_never_exhausts : ~ exactly_capacity_granted 1 0 0.
Proof.
  intros [_ H]. specialize (H 1%nat ltac:(simpl; lia)).
  vm_compute in H. discriminate H.
Qed.

(** C2: once now - lastRefill >= windowMs, the refill that opens the next
    admission check puts the tokens back to the full capacity and moves
    lastRefill to now, so tryConsume is granted whenever the capacity is at
    least 1, whatever the tokens were; before that point, refill changes
    nothing (no partial refill). *)
Theorem refill_is_full_reset (now : Z) (l : t) :
  now - lastRefill (state l) >= windowMs (config l) ->
  refill now l = mk (mkState (maxRequests (config l)) now) (config l) /\
  (1 <= maxRequests (config l) ->
     tryConsume now l =
       (true, mk (mkState (maxRequests (config l) - 1) now) (config l))) /\
  (forall earlier, earlier - lastRefill (state l) < windowMs (config l) ->
     refill earlier l = l).
Proof.
  intros H. split; [apply refill_expired; exact H | split].
  - intros Hcap. unfold tryConsume. rewrite refill_expired by exact H.
    cbn [state tokens lastRefill config].
    destruct (Z.gtb_spec (maxRequests (config l)) 0); [reflexivity | lia].
  - intros earlier He. apply refill_pending; exact He.
Qed.

Lemma refill_is_full_reset_witness :
  let l := mk (mkState 0 5) (mkConfig 2 1000) in
  refill 1005 l = mk (mkState 2 1005) (mkConfig 2 1000) /\
  tryConsume 1005 l = (true, mk (mkState 1 1005) (mkConfig 2 1000)) /\
  refill 1004 l = l.
Proof.
  intros l.
  destruct (refill_is_full_reset 1005 l ltac:(simpl; lia)) as (H1 & H2 & H3).
  split; [exact H1 | split].
  - apply H2. simpl. lia.
  - apply H3. simpl. lia.
Defined.

(** C8: getTimeUntilRefill returns max(0, windowMs - (now - lastRefill)); on
    an unchanged object a later clock reading never gives a larger value,
    and the value is 0 once the whole window has elapsed. *)
Theorem getTimeUntilRefill_decreases (l : t) (now1 now2 : Z) :
  now1 <= now2 ->
  getTimeUntilRefill now1 l =
    Z.max 0 (windowMs (config l) - (now1 - lastRefill (state l))) /\
  getTimeUntilRefill now2 l <= getTimeUntilRefill now1 l /\
  (now2 - lastRefill (state l) >= windowMs (config l) ->
     getTimeUntilRefill now2 l = 0).
Proof.
  intros H. unfold getTimeUntilRefill. repeat split; lia.
Qed.

Lemma getTimeUntilRefill_decreases_witness :
  let l := constructor (mkConfig 2 1000) 0 in
  getTimeUntilRefill 500 l = 500 /\
  getTimeUntilRefill 1000 l <= getTimeUntilRefill 500 l /\
  getTimeUntilRefill 1000 l = 0.
Proof.
  intros l.
  destruct (getTimeUntilRefill_decreases l 500 1000 ltac:(lia)) as (H1 & H2 & H3).
  split; [exact H1 | split; [exact H2 | apply H3; simpl; lia]].
Defined.

Lemma step_config o now l : config (step o now l) = config l.
Proof.
  destruct o; simpl; unfold tryConsume; try destruct (_ >? _); simpl;
    auto using refill_config.
Qed.

Lemma refill_budget now l :
  0 <= maxRequests (config l) -> budget_ok l -> budget_ok (refill now l).
Proof.
  unfold budget_ok, refill. intros Hc Hl.
  destruct (_ >=? _); simpl; lia.
Qed.

Lemma step_budget o now l :
  0 <= maxRequests (config l) -> budget_ok l -> budget_ok (step o now l).
Proof.
  intros Hc Hl. destruct o; simpl; [| apply refill_budget; assumption | assumption].
  unfold tryConsume.
  pose proof (refill_budget now l Hc Hl) as Hr.
  pose proof (refill_config now l) as Hcfg.
  unfold budget_ok in *.
  destruct (Z.gtb_spec (tokens (state (refill now l))) 0); simpl; lia.
Qed.

Lemma step_anchor o now l :
  lastRefill (state l) <= now ->
  lastRefill (state l) <= lastRefill (state (step o now l)) <= now.
Proof.
  intros H. destruct o; simpl; unfold tryConsume, refill;
    repeat (destruct (_ >=? _) || destruct (_ >? _)); simpl; lia.
Qed.

Lemma states_invariant calls : forall l clock,
  0 <= maxRequests (config l) -> budget_ok l ->
  lastRefill (state l) <= clock ->
  nondecreasing (clock :: map snd calls) ->
  Forall budget_ok (states calls l) /\
  nondecreasing (map (fun x => lastRefill (state x)) (states calls l)).
Proof.
  induction calls as [|[o now] rest IH]; intros l clock Hc Hl Ha Hm.
  - simpl. split; [constructor; auto | exact I].
  - cbn [states]. cbn [map snd] in Hm. destruct Hm as [Hle Hm].
    destruct (step_anchor o now l ltac:(lia)) as [Hlo Hhi].
    destruct (IH (step o now l) now) as [IH1 IH2]; auto.
    + rewrite step_config. exact Hc.
    + apply step_budget; assumption.
    + split; [constructor; assumption |].
      destruct rest as [|[o' now'] rest']; cbn [states map] in *;
        (split; [exact Hlo | exact IH2]).
Qed.

(** C7: with a capacity that is not negative, 0 <= tokens <= maxRequests
    holds at construction and after every call of tryConsume,
    getAvailableTokens and getTimeUntilRefill, and under a clock that never
    goes back lastRefill never decreases from one call to the next. *)
Theorem budget_invariant (cfg : RateLimiterConfig) (t0 : Z) (calls : list (op * Z)) :
  0 <= maxRequests cfg ->
  nondecreasing (t0 :: map snd calls) ->
  Forall budget_ok (states calls (constructor cfg t0)) /\
  nondecreasing
    (map (fun l => lastRefill (state l)) (states calls (constructor cfg t0))).
Proof.
  intros Hc Hm. apply (states_invariant calls _ t0); simpl; auto;
    unfold budget_ok; simpl; lia.
Qed.

Lemma budget_invariant_witness :
  let calls := [(TryConsume, 0); (TryConsume, 10); (GetTimeUntilRefill, 20);
                (TryConsume, 500); (GetAvailableTokens, 1200); (TryConsume, 1200)] in
  Forall budget_ok (states calls (constructor (mkConfig 2 1000) 0)) /\
  nondecreasing
    (map (fun l => lastRefill (state l)) (states calls (constructor (mkConfig 2 1000) 0))).
Proof.
  intros calls.
  apply (budget_invariant (mkConfig 2 1000) 0 calls).
  - simpl. lia.
  - simpl. lia.
Defined.

End TokenBucket.

Module URLFacts.
Import URLSearchParams.

Lemma get_append n k v p :
  get n (append k v p) =
    match get n p with
    | Some x => Some x
    | None => if String.eqb k n then Some v else None
    end.
Proof.
  unfold append. induction p as [|[k' v'] p IH]; simpl.
  - reflexivity.
  - destruct (String.eqb k' n); [reflexivity | exact IH].
Qed.

Lemma forallb_append f k v p :
  forallb f (append k v p) = forallb f p && f (k, v).
Proof. unfold append. rewrite forallb_app. simpl. rewrite andb_true_r. reflexivity. Qed.

Lemma truthy_app_r a b : JS.truthy b = true -> JS.truthy (a ++ b) = true.
Proof. destruct a; simpl; auto. Qed.

Lemma truthy_app_l a b : JS.truthy a = true -> JS.truthy (a ++ b) = true.
Proof. destruct a; simpl; [discriminate | reflexivity]. Qed.

(** The query string is empty exactly when there is no parameter. *)
Lemma toString_truthy p :
  JS.truthy (toString p) = match p with [] => false | _ :: _ => true end.
Proof.
  unfold toString. destruct p as [|kv [|kv' p]]; cbn [map String.concat].
  - reflexivity.
  - apply truthy_app_r. reflexivity.
  - apply truthy_app_r. reflexivity.
Qed.

Lemma join_truthy sep x l :
  JS.truthy x = true -> JS.truthy (JS.join sep (x :: l)) = true.
Proof.
  intros H. unfold JS.join. destruct l; cbn [String.concat]; auto using truthy_app_l.
Qed.

Lemma toString_truthy_Z z : JS.truthy (JS.toString z) = true.
Proof.
  unfold JS.toString. destruct (Z.to_int z) as [d|d]; simpl; [|reflexivity].
  destruct d; reflexivity.
Qed.

Lemma flags_join_truthy (fl : list JokeTypes.JokeFlagKey) :
  (Z.of_nat (List.length fl) >? 0)%Z = true ->
  JS.truthy (JS.join "," (map JokeTypes.JokeFlagKey_string fl)) = true.
Proof.
  destruct fl as [|k fl]; [discriminate |].
  intros _. cbn [map]. apply join_truthy. destruct k; reflexivity.
Qed.

Lemma amount_guard a :
  (negb (a =? 0) && (a >? 1) && (a <=? 10) = (1 <? a) && (a <=? 10))%Z.
Proof.
  destruct (Z.eqb_spec a 0), (Z.gtb_spec a 1), (Z.ltb_spec 1 a), (Z.leb_spec a 10);
    simpl; try reflexivity; lia.
Qed.

End URLFacts.


(** Case analysis on the conditional appends of the two [buildUrl]. *)
Ltac split_params :=
  repeat match goal with
    | |- context [match ?x with Some _ => _ | None => _ end] => is_var x; destruct x
    | |- context [if JS.truthy ?s then _ else _] => destruct (JS.truthy s) eqn:?
    | |- context [if (?n >? 0)%Z then _ else _] => destruct (n >? 0)%Z eqn:?
    end.

Ltac values_given :=
  rewrite ?URLFacts.forallb_append; cbn [forallb URLSearchParams.empty];
  unfold URLSearchParams.value_given; cbn [snd];
  repeat (apply andb_true_intro; split);
  solve [ reflexivity | assumption | apply URLFacts.toString_truthy_Z
        | apply URLFacts.flags_join_truthy; assumption ].

Section UrlBuilding.
Import JokeTypes URLFacts.
Local Open Scope string_scope.

Lemma client_amount_param (o : JokeApiClient.JokeFetchOptions) :
  URLSearchParams.get "amount" (JokeApiClient.build_params o) =
    match JokeApiClient.opt_amount o with
    | Some a => if ((1 <? a) && (a <=? 10))%Z then Some (JS.toString a) else None
    | None => None
    end.
Proof.
  destruct o as [c l b t s a tm]. unfold JokeApiClient.build_params.
  cbn [JokeApiClient.opt_lang JokeApiClient.opt_blacklistFlags JokeApiClient.opt_type
       JokeApiClient.opt_contains JokeApiClient.opt_amount].
  destruct a as [a|]; [rewrite amount_guard; destruct ((1 <? a) && (a <=? 10))%Z|].
  all: cbv zeta; split_params; reflexivity.
Qed.

Lemma generator_amount_param (o : JokeGenerator.JokeOptions) :
  URLSearchParams.get "amount" (JokeGenerator.build_params o) =
    match JokeGenerator.opt_amount o with
    | Some a =>
        if (a =? 0)%Z then None else Some (JS.toString (Z.max 1 (Z.min 10 a)))
    | None => None
    end.
Proof.
  destruct o as [c b t s l a]. unfold JokeGenerator.build_params.
  cbn [JokeGenerator.opt_lang JokeGenerator.opt_blacklistFlags JokeGenerator.opt_type
       JokeGenerator.opt_searchString JokeGenerator.opt_amount].
  destruct a as [a|]; [destruct (a =? 0)%Z|]; cbn [negb].
  all: cbv zeta; split_params; reflexivity.
Qed.

Lemma client_values_given (o : JokeApiClient.JokeFetchOptions) :
  forallb URLSearchParams.value_given (JokeApiClient.build_params o) = true.
Proof.
  destruct o as [c l b t s a tm]. unfold JokeApiClient.build_params.
  cbn [JokeApiClient.opt_lang JokeApiClient.opt_blacklistFlags JokeApiClient.opt_type
       JokeApiClient.opt_contains JokeApiClient.opt_amount].
  destruct a as [a|];
    [destruct (negb (a =? 0) && (a >? 1) && (a <=? 10))%Z|].
  all: cbv zeta; split_params; values_given.
Qed.

Lemma generator_values_given (o : JokeGenerator.JokeOptions) :
  forallb URLSearchParams.value_given (JokeGenerator.build_params o) = true.
Proof.
  destruct o as [c b t s l a]. unfold JokeGenerator.build_params.
  cbn [JokeGenerator.opt_lang JokeGenerator.opt_blacklistFlags JokeGenerator.opt_type
       JokeGenerator.opt_searchString JokeGenerator.opt_amount].
  destruct a as [a|]; [destruct (a =? 0)%Z|]; cbn [negb].
  all: cbv zeta; split_params; values_given.
Qed.

Lemma client_url_shape base (o : JokeApiClient.JokeFetchOptions) :
  JokeApiClient.buildUrl base o =
    base ++ "/joke/" ++ JokeApiClient.categories_segment o ++
    match JokeApiClient.build_params o with
    | [] => EmptyString
    | p => "?" ++ URLSearchParams.toString p
    end.
Proof.
  unfold JokeApiClient.buildUrl. cbv zeta. rewrite toString_truthy.
  destruct (JokeApiClient.build_params o); reflexivity.
Qed.

Lemma generator_url_shape base (o : JokeGenerator.JokeOptions) :
  JokeGenerator.buildUrl base o =
    match JokeGenerator.build_params o with
    | [] => base ++ "/" ++ JokeGenerator.categories_segment o
    | p => (base ++ "/" ++ JokeGenerator.categories_segment o) ++
           "?" ++ URLSearchParams.toString p
    end.
Proof.
  unfold JokeGenerator.buildUrl. cbv zeta. rewrite toString_truthy.
  destruct (JokeGenerator.build_params o); reflexivity.
Qed.

Lemma client_segment (o : JokeApiClient.JokeFetchOptions) :
  JokeApiClient.categories_segment o =
    match JokeApiClient.opt_category o with
    | None => "Any"
    | Some (inl c) => JokeApiClient.JokeCategory_string c
    | Some (inr cs) => JS.join "," (map JokeApiClient.JokeCategory_string cs)
    end.
Proof.
  unfold JokeApiClient.categories_segment.
  destruct (JokeApiClient.opt_category o) as [[c|cs]|]; try reflexivity.
  destruct c; reflexivity.
Qed.

Lemma generator_segment (o : JokeGenerator.JokeOptions) :
  JokeGenerator.categories_segment o =
    match JokeGenerator.opt_categories o with
    | None | Some [] => "Programming,Misc,Pun"
    | Some cs => JS.join "," (map JokeGenerator.JokeCategory_string cs)
    end.
Proof.
  unfold JokeGenerator.categories_segment.
  destruct (JokeGenerator.opt_categories o) as [[|c cs]|]; try reflexivity.
  cbn [option_map JS.or_else map]. rewrite join_truthy; [reflexivity|].
  destruct c; reflexivity.
Qed.

End UrlBuilding.

Section UrlClaims.
Import JokeTypes URLFacts.
Local Open Scope string_scope.

(** C5 (as amended): JokeApiClient.buildUrl emits the amount parameter
    exactly when 1 < amount <= 10, with the amount as its value, so amount 1
    emits none and amount 5 emits amount=5; JokeGenerator.buildUrl emits it
    for every amount that is given and not 0, with the amount clamped to
    [1, 10] as its value, so it emits amount=1 for amount 1. *)
Theorem amount_parameter :
  (forall o : JokeApiClient.JokeFetchOptions,
     URLSearchParams.get "amount" (JokeApiClient.build_params o) =
       match JokeApiClient.opt_amount o with
       | Some a => if ((1 <? a) && (a <=? 10))%Z then Some (JS.toString a) else None
       | None => None
       end) /\
  (forall o : JokeGenerator.JokeOptions,
     URLSearchParams.get "amount" (JokeGenerator.build_params o) =
       match JokeGenerator.opt_amount o with
       | Some a =>
           if (a =? 0)%Z then None else Some (JS.toString (Z.max 1 (Z.min 10 a)))
       | None => None
       end) /\
  (forall a : Z, (1 <= Z.max 1 (Z.min 10 a) <= 10)%Z) /\
  JokeApiClient.buildUrl "https://v2.jokeapi.dev"
    (JokeApiClient.mkOptions None None None None None (Some 1%Z) None) =
    "https://v2.jokeapi.dev/joke/Any" /\
  JokeApiClient.buildUrl "https://v2.jokeapi.dev"
    (JokeApiClient.mkOptions None None None None None (Some 5%Z) None) =
    "https://v2.jokeapi.dev/joke/Any?amount=5".
Proof.
  split; [exact client_amount_param | split; [exact generator_amount_param | split]].
  - intros a. lia.
  - split; reflexivity.
Qed.

(** The token-bucket variant emits the parameter for amount 1. *)
Lemma generator_emits_amount_one :
  URLSearchParams.get "amount"
    (JokeGenerator.build_params
       (JokeGenerator.mkOptions None None None None None (Some 1%Z))) = Some "1" /\
  JokeGenerator.buildUrl JokeGenerator.JOKE_API_BASE_URL
    (JokeGenerator.mkOptions None None None None None (Some 1%Z)) =
    "https://v2.jokeapi.dev/joke/Programming,Misc,Pun?amount=1&safe-mode=true".
Proof. split; reflexivity. Qed.

(** C6 (as amended): in JokeApiClient.buildUrl the category segment is Any
    when no category is given; in JokeGenerator.buildUrl it is the list of
    default safe categories, Programming,Misc,Pun, when no category (or an
    empty list) is given; a list of categories is joined with commas in the
    order given; and in both variants every query parameter that is
    emitted has a value that is not empty. *)
Theorem category_segment_and_parameters :
  (forall base (o : JokeApiClient.JokeFetchOptions),
     JokeApiClient.categories_segment o =
       match JokeApiClient.opt_category o with
       | None => "Any"
       | Some (inl c) => JokeApiClient.JokeCategory_string c
       | Some (inr cs) => JS.join "," (map JokeApiClient.JokeCategory_string cs)
       end /\
     JokeApiClient.buildUrl base o =
       base ++ "/joke/" ++ JokeApiClient.categories_segment o ++
       match JokeApiClient.build_params o with
       | [] => EmptyString
       | p => "?" ++ URLSearchParams.toString p
       end /\
     forallb URLSearchParams.value_given (JokeApiClient.build_params o) = true) /\
  (forall base (o : JokeGenerator.JokeOptions),
     JokeGenerator.categories_segment o =
       match JokeGenerator.opt_categories o with
       | None | Some [] => "Programming,Misc,Pun"
       | Some cs => JS.join "," (map JokeGenerator.JokeCategory_string cs)
       end /\
     JokeGenerator.buildUrl base o =
       match JokeGenerator.build_params o with
       | [] => base ++ "/" ++ JokeGenerator.categories_segment o
       | p => (base ++ "/" ++ JokeGenerator.categories_segment o) ++
              "?" ++ URLSearchParams.toString p
       end /\
     forallb URLSearchParams.value_given (JokeGenerator.build_params o) = true) /\
  JokeApiClient.categories_segment
    (JokeApiClient.mkOptions
       (Some (inr [JokeApiClient.Programming; JokeApiClient.Pun]))
       None None None None None None) = "Programming,Pun".
Proof.
  split; [|split].
  - intros base o.
    auto using client_segment, client_url_shape, client_values_given.
  - intros base o.
    auto using generator_segment, generator_url_shape, generator_values_given.
  - reflexivity.
Qed.

(** With no category the token-bucket variant asks for three named
    categories, not for the Any category. *)
Lemma generator_default_is_not_any :
  JokeGenerator.categories_segment JokeGenerator.no_options = "Programming,Misc,Pun" /\
  JokeGenerator.categories_segment JokeGenerator.no_options <>
    JokeApiClient.JokeCategory_string JokeApiClient.Any /\
  JokeGenerator.buildUrl JokeGenerator.JOKE_API_BASE_URL JokeGenerator.no_options =
    "https://v2.jokeapi.dev/joke/Programming,Misc,Pun?safe-mode=true".
Proof. split; [reflexivity | split; [discriminate | reflexivity]]. Qed.

(** C10 (as amended): JokeGenerator.buildUrl appends safe-mode=true, as the
    last parameter, exactly when blacklistFlags is absent (undefined);
    every list given for blacklistFlags, the empty list included,
    suppresses it. *)
Theorem safe_mode_parameter :
  (forall o : JokeGenerator.JokeOptions,
     URLSearchParams.get "safe-mode" (JokeGenerator.build_params o) =
       match JokeGenerator.opt_blacklistFlags o with
       | None => Some "true"
       | Some _ => None
       end) /\
  (forall c t s l a,
     JokeGenerator.build_params (JokeGenerator.mkOptions c None t s l a) =
       URLSearchParams.append "safe-mode" "true"
         (JokeGenerator.build_params (JokeGenerator.mkOptions c (Some []) t s l a))).
Proof.
  split.
  - intros o. destruct o as [c b t s l a]. unfold JokeGenerator.build_params.
    cbn [JokeGenerator.opt_lang JokeGenerator.opt_blacklistFlags JokeGenerator.opt_type
         JokeGenerator.opt_searchString JokeGenerator.opt_amount].
    destruct a as [a|]; [destruct (a =? 0)%Z|]; cbn [negb].
    all: cbv zeta; split_params; reflexivity.
  - intros c t s l a. reflexivity.
Qed.

(** An empty list of flags suppresses safe-mode too, and emits no
    blacklistFlags parameter either. *)
Lemma empty_blacklist_drops_safe_mode :
  URLSearchParams.get "safe-mode"
    (JokeGenerator.build_params
       (JokeGenerator.mkOptions None (Some []) None None None None)) = None /\
  JokeGenerator.buildUrl JokeGenerator.JOKE_API_BASE_URL
    (JokeGenerator.mkOptions None (Some []) None None None None) =
    "https://v2.jokeapi.dev/joke/Programming,Misc,Pun".
Proof. split; reflexivity. Qed.

End UrlClaims.

Section Classification.
Import JokeTypes Samples.
Local Open Scope string_scope.

Lemma fetchJoke_granted env base o w :
  fst (RateLimiter.tryConsume (JokeGenerator.clock env (JokeGenerator.ticks w))
         (JokeGenerator.rateLimiter w)) = true ->
  JokeGenerator.fetchJoke env base o w =
    let t1 := JokeGenerator.clock env (JokeGenerator.ticks w) in
    let w1 :=
      JokeGenerator.mkWorld
        (snd (RateLimiter.tryConsume t1 (JokeGenerator.rateLimiter w)))
        (S (JokeGenerator.ticks w))
        ((JokeGenerator.effects w ++ [JokeGenerator.DateNow t1]) ++
           [JokeGenerator.Fetch (JokeGenerator.buildUrl base o)]) in
    match JokeGenerator.network env (JokeGenerator.buildUrl base o) with
    | inl r =>
        (inl (JokeGenerator.Error
                ("Failed to fetch joke: " ++
                 match r with
                 | JS.RejError _ m => m
                 | JS.RejOther => "Unknown error"
                 end)), w1)
    | inr response =>
        if negb (JS.ok response) then
          (inl (JokeGenerator.Error
                  ("Failed to fetch joke: " ++
                   "HTTP error! status: " ++ JS.toString (JS.status response))), w1)
        else
          match JS.json response with
          | inl r =>
              (inl (JokeGenerator.Error
                      ("Failed to fetch joke: " ++
                       match r with
                       | JS.RejError _ m => m
                       | JS.RejOther => "Unknown error"
                       end)), w1)
          | inr data =>
              if JokeGenerator.data_error data then
                (inl (JokeGenerator.JokeAPIError
                        (JS.or_else (JokeGenerator.data_message data) "Unknown API error")
                        (JokeGenerator.data_code data)
                        (JokeGenerator.data_causedBy data)), w1)
              else (inr data, w1)
          end
    end.
Proof.
  intros Hg.
  unfold JokeGenerator.fetchJoke, JokeGenerator.bind, JokeGenerator.rateLimiter_tryConsume,
    JokeGenerator.bind, JokeGenerator.Date_now, JokeGenerator.try_catch,
    JokeGenerator.fetch.
  cbn [JokeGenerator.rateLimiter JokeGenerator.ticks JokeGenerator.effects].
  rewrite Hg. cbn [negb]. cbv zeta.
  destruct (JokeGenerator.network env (JokeGenerator.buildUrl base o)) as [r|response].
  - reflexivity.
  - destruct (JS.ok response); cbn [negb]; [|reflexivity].
    unfold JokeGenerator.response_json.
    destruct (JS.json response) as [r|data]; [reflexivity|].
    unfold JokeGenerator.ret.
    destruct (JokeGenerator.data_error data); reflexivity.
Qed.

Lemma fetchJoke_denied env base o w :
  fst (RateLimiter.tryConsume (JokeGenerator.clock env (JokeGenerator.ticks w))
         (JokeGenerator.rateLimiter w)) = false ->
  JokeGenerator.fetchJoke env base o w =
    let t1 := JokeGenerator.clock env (JokeGenerator.ticks w) in
    let t2 := JokeGenerator.clock env (S (JokeGenerator.ticks w)) in
    let l1 := snd (RateLimiter.tryConsume t1 (JokeGenerator.rateLimiter w)) in
    let retryAfter := RateLimiter.getTimeUntilRefill t2 l1 in
    (inl (JokeGenerator.RateLimitError
            ("Rate limit exceeded. Please try again in " ++
             JS.toString (JokeGenerator.ceil_seconds retryAfter) ++ " seconds.")
            retryAfter),
     JokeGenerator.mkWorld l1 (S (S (JokeGenerator.ticks w)))
       ((JokeGenerator.effects w ++ [JokeGenerator.DateNow t1]) ++
          [JokeGenerator.DateNow t2])).
Proof.
  intros Hd.
  unfold JokeGenerator.fetchJoke, JokeGenerator.bind, JokeGenerator.rateLimiter_tryConsume,
    JokeGenerator.rateLimiter_getTimeUntilRefill, JokeGenerator.bind,
    JokeGenerator.Date_now, JokeGenerator.throw.
  cbn [JokeGenerator.rateLimiter JokeGenerator.ticks JokeGenerator.effects].
  rewrite Hd. reflexivity.
Qed.

(** C3 (as amended): after a transport round trip each client produces one
    outcome, a thrown error or the payload. JokeApiClient.parseResponse
    throws a JokeApiClientError for a non-success status, with the status
    as its code, and the same class for a payload whose error field is
    true, with the payload's code and causedBy and the payload's message
    (a fixed text when that message is empty); JokeGenerator.fetchJoke
    throws a plain Error whose message ends with the status for a
    non-success status, and a JokeAPIError with the payload's code, causedBy
    and message (a fixed text when empty) for an error payload; both return
    the payload itself otherwise. Only in the token-bucket variant do the
    two failures belong to different classes. *)
Theorem response_classification :
  (forall response : JS.Response JokeApiClient.Data,
     JS.ok response = false ->
     JokeApiClient.parseResponse response =
       inl (JokeApiClient.JokeApiClientError
              ("HTTP error! status: " ++ JS.toString (JS.status response))
              (Some (JS.status response)) None)) /\
  (forall (response : JS.Response JokeApiClient.Data) e,
     JS.ok response = true ->
     JS.json response = inr (JokeApiClient.DataError e) ->
     JokeApiClient.parseResponse response =
       inl (JokeApiClient.JokeApiClientError
              (if JS.truthy (JokeApiClient.message e)
               then JokeApiClient.message e else "API returned an error")
              (Some (JokeApiClient.code e)) (Some (JokeApiClient.causedBy e)))) /\
  (forall (response : JS.Response JokeApiClient.Data) data,
     JS.ok response = true ->
     JS.json response = inr data ->
     JokeApiClient.data_error data = false ->
     JokeApiClient.parseResponse response = inr data) /\
  (forall env base o w response,
     fst (RateLimiter.tryConsume (JokeGenerator.clock env (JokeGenerator.ticks w))
            (JokeGenerator.rateLimiter w)) = true ->
     JokeGenerator.network env (JokeGenerator.buildUrl base o) = inr response ->
     (JS.ok response = false ->
      fst (JokeGenerator.fetchJoke env base o w) =
        inl (JokeGenerator.Error
               ("Failed to fetch joke: HTTP error! status: " ++
                JS.toString (JS.status response)))) /\
     (forall e,
        JS.ok response = true ->
        JS.json response = inr (JokeGenerator.DataError e) ->
        JokeGenerator.err_error e = true ->
        fst (JokeGenerator.fetchJoke env base o w) =
          inl (JokeGenerator.JokeAPIError
                 (if JS.truthy (JokeGenerator.message e)
                  then JokeGenerator.message e else "Unknown API error")
                 (Some (JokeGenerator.code e)) (Some (JokeGenerator.causedBy e)))) /\
     (forall data,
        JS.ok response = true ->
        JS.json response = inr data ->
        JokeGenerator.data_error data = false ->
        fst (JokeGenerator.fetchJoke env base o w) = inr data)) /\
  (forall m c r m', JokeGenerator.JokeAPIError m c r <> JokeGenerator.Error m').
Proof.
  split; [|split; [|split; [|split]]].
  - intros response Hok. unfold JokeApiClient.parseResponse. rewrite Hok. reflexivity.
  - intros response e Hok Hj. unfold JokeApiClient.parseResponse.
    rewrite Hok, Hj. reflexivity.
  - intros response data Hok Hj He. unfold JokeApiClient.parseResponse.
    rewrite Hok, Hj, He. reflexivity.
  - intros env base o w response Hg Hn.
    rewrite (fetchJoke_granted env base o w Hg), Hn. cbv zeta.
    split; [|split].
    + intros Hok. rewrite Hok. reflexivity.
    + intros e Hok Hj He. rewrite Hok, Hj. cbn [negb JokeGenerator.data_error].
      rewrite He. reflexivity.
    + intros data Hok Hj He. rewrite Hok, Hj, He. reflexivity.
  - intros m c r m'. discriminate.
Qed.

Lemma response_classification_witness :
  JokeApiClient.parseResponse (JS.mkResponse 500 (inl JS.RejOther)) =
    inl (JokeApiClient.JokeApiClientError "HTTP error! status: 500" (Some 500%Z) None) /\
  JokeApiClient.parseResponse
    (JS.mkResponse 200 (inr (JokeApiClient.DataError sample_client_error))) =
    inl (JokeApiClient.JokeApiClientError "No matching joke found" (Some 106%Z)
           (Some ["No jokes were found that match your provided filter(s)."])) /\
  JokeApiClient.parseResponse (JS.mkResponse 200 (inr (JokeApiClient.DataJokes []))) =
    inr (JokeApiClient.DataJokes []) /\
  fst (JokeGenerator.fetchJoke
         (JokeGenerator.mkEnv (fun _ => 0%Z)
            (fun _ => inr (JS.mkResponse 200
                             (inr (JokeGenerator.DataError sample_generator_error)))))
         JokeGenerator.JOKE_API_BASE_URL JokeGenerator.no_options
         (JokeGenerator.mkWorld (RateLimiter.createDefaultRateLimiter 0) 0 [])) =
    inl (JokeGenerator.JokeAPIError "No matching joke found" (Some 106%Z)
           (Some ["No jokes were found that match your provided filter(s)."])).
Proof.
  destruct response_classification as (H1 & H2 & H3 & H4 & _).
  split; [|split; [|split]].
  - apply (H1 (JS.mkResponse 500 (inl JS.RejOther))). reflexivity.
  - apply (H2 (JS.mkResponse 200 (inr (JokeApiClient.DataError sample_client_error)))
              sample_client_error); reflexivity.
  - apply (H3 (JS.mkResponse 200 (inr (JokeApiClient.DataJokes [])))); reflexivity.
  - refine (proj1 (proj2 (H4 _ _ _ _ _ _ _)) sample_generator_error _ _ _);
      reflexivity.
Defined.

(** In the scheduler-backed client a non-success status and an error
    payload are thrown as one and the same class, and an error payload with
    an empty message is not thrown with that message. *)
Lemma client_failures_share_a_class :
  JokeApiClient.parseResponse (JS.mkResponse 404 (inl JS.RejOther)) =
    inl (JokeApiClient.JokeApiClientError "HTTP error! status: 404" (Some 404%Z) None) /\
  JokeApiClient.parseResponse
    (JS.mkResponse 200
       (inr (JokeApiClient.DataError
               (JokeApiClient.mkApiError false 106 EmptyString [] EmptyString 0)))) =
    inl (JokeApiClient.JokeApiClientError "API returned an error" (Some 106%Z) (Some [])) /\
  JokeApiClient.name
    (JokeApiClient.JokeApiClientError "HTTP error! status: 404" (Some 404%Z) None) =
  JokeApiClient.name
    (JokeApiClient.JokeApiClientError "API returned an error" (Some 106%Z) (Some [])).
Proof. repeat split. Qed.

(** C4: fetchJoke consults the rate limiter before anything else: the first
    effect of a call is the clock reading of tryConsume, and the limiter
    after the call is the one tryConsume leaves. When tryConsume denies,
    the call throws a RateLimitError whose retryAfter is what
    getTimeUntilRefill then returns, and performs no fetch; a fetch is
    performed only after a grant. *)
Theorem fetchJoke_admission_first env base o w :
  let t1 := JokeGenerator.clock env (JokeGenerator.ticks w) in
  let t2 := JokeGenerator.clock env (S (JokeGenerator.ticks w)) in
  let decision := RateLimiter.tryConsume t1 (JokeGenerator.rateLimiter w) in
  let result := JokeGenerator.fetchJoke env base o w in
  JokeGenerator.rateLimiter (snd result) = snd decision /\
  (fst decision = false ->
     fst result =
       inl (JokeGenerator.RateLimitError
              ("Rate limit exceeded. Please try again in " ++
               JS.toString (JokeGenerator.ceil_seconds
                              (RateLimiter.getTimeUntilRefill t2 (snd decision))) ++
               " seconds.")
              (RateLimiter.getTimeUntilRefill t2 (snd decision))) /\
     JokeGenerator.effects (snd result) =
       (JokeGenerator.effects w ++
          [JokeGenerator.DateNow t1; JokeGenerator.DateNow t2])%list) /\
  (fst decision = true ->
     JokeGenerator.effects (snd result) =
       (JokeGenerator.effects w ++
          [JokeGenerator.DateNow t1;
           JokeGenerator.Fetch (JokeGenerator.buildUrl base o)])%list).
Proof.
  intros t1 t2 decision result. subst result.
  destruct (fst decision) eqn:Hd; subst decision t1 t2.
  - rewrite (fetchJoke_granted env base o w Hd). cbv zeta.
    destruct (JokeGenerator.network env (JokeGenerator.buildUrl base o)) as [r|response];
      [|destruct (JS.ok response); cbn [negb];
        [destruct (JS.json response) as [r|data];
         [|destruct (JokeGenerator.data_error data)]|]].
    all: cbn [snd JokeGenerator.rateLimiter JokeGenerator.effects].
    all: rewrite <- app_assoc; cbn [app].
    all: split; [reflexivity | split; [discriminate | reflexivity]].
  - rewrite (fetchJoke_denied env base o w Hd). cbv zeta.
    cbn [fst snd JokeGenerator.rateLimiter JokeGenerator.effects].
    rewrite <- app_assoc. cbn [app].
    split; [reflexivity | split; [intros _; split; reflexivity | discriminate]].
Qed.

Lemma fetchJoke_admission_first_witness :
  let env := JokeGenerator.mkEnv (fun n => (Z.of_nat n * 100)%Z) (fun _ => inl JS.RejOther) in
  let w := JokeGenerator.mkWorld
             (RateLimiter.mk (RateLimiter.mkState 0 0) (RateLimiter.mkConfig 1 1000))
             3 [] in
  fst (JokeGenerator.fetchJoke env JokeGenerator.JOKE_API_BASE_URL
         JokeGenerator.no_options w) =
    inl (JokeGenerator.RateLimitError
           "Rate limit exceeded. Please try again in 1 seconds." 600) /\
  JokeGenerator.effects
    (snd (JokeGenerator.fetchJoke env JokeGenerator.JOKE_API_BASE_URL
            JokeGenerator.no_options w)) =
    [JokeGenerator.DateNow 300; JokeGenerator.DateNow 400].
Proof.
  intros env w.
  destruct (fetchJoke_admission_first env JokeGenerator.JOKE_API_BASE_URL
              JokeGenerator.no_options w) as (_ & Hdenied & _).
  apply Hdenied. reflexivity.
Defined.

End Classification.

Section Formatting.
Import JokeTypes Samples.
Local Open Scope string_scope.

Lemma line_break_not_empty a b : a ++ JS.LF ++ b <> EmptyString.
Proof. destruct a; discriminate. Qed.

(** C9 (as amended): the formatter gives the text of a single-form joke
    verbatim, so its result is empty exactly when that text is empty (or, in
    the token-bucket variant, absent), and gives setup and delivery joined
    by one line break for a two-part joke, which is never empty. *)
Theorem formatted_joke :
  (forall base text,
     JokeApiClient.formatJoke (JokeApiClient.SingleJoke base text) = text) /\
  (forall base setup delivery,
     JokeApiClient.formatJoke (JokeApiClient.TwoPartJoke base setup delivery) =
       setup ++ JS.LF ++ delivery /\
     JokeApiClient.formatJoke (JokeApiClient.TwoPartJoke base setup delivery) <>
       EmptyString) /\
  (forall e c text st dl f i sf lg,
     JokeGenerator.format
       (JokeGenerator.DataJoke (JokeGenerator.mkJoke e c single text st dl f i sf lg)) =
       match text with Some t => t | None => EmptyString end) /\
  (forall e c text st dl f i sf lg,
     JokeGenerator.format
       (JokeGenerator.DataJoke (JokeGenerator.mkJoke e c twopart text st dl f i sf lg)) =
       JS.template st ++ JS.LF ++ JS.template dl /\
     JokeGenerator.format
       (JokeGenerator.DataJoke (JokeGenerator.mkJoke e c twopart text st dl f i sf lg)) <>
       EmptyString).
Proof.
  split; [|split; [|split]].
  - reflexivity.
  - intros base setup delivery. split; [reflexivity | apply line_break_not_empty].
  - intros e c [[|ch t]|] st dl f i sf lg; reflexivity.
  - intros e c text st dl f i sf lg. split; [reflexivity | apply line_break_not_empty].
Qed.

(** A single-form joke with an empty text is classified as a success and
    formatted as the empty string. *)
Lemma empty_text_formats_empty :
  JokeApiClient.parseResponse
    (JS.mkResponse 200
       (inr (JokeApiClient.DataJoke (JokeApiClient.SingleJoke sample_base EmptyString)))) =
    inr (JokeApiClient.DataJoke (JokeApiClient.SingleJoke sample_base EmptyString)) /\
  JokeApiClient.formatJoke (JokeApiClient.SingleJoke sample_base EmptyString) =
    EmptyString.
Proof. split; reflexivity. Qed.

End Formatting.

(** ** Further properties of the token-bucket rate limiter *)

Section TokenBucketRuns.
Import RateLimiter RateLimiterFacts.

Lemma refill_idempotent now l : refill now (refill now l) = refill now l.
Proof.
  unfold refill.
  destruct (Z.geb_spec (now - lastRefill (state l)) (windowMs (config l))) as [H|H];
    cbn [state config lastRefill].
  - destruct (Z.geb_spec (now - now) (windowMs (config l))); reflexivity.
  - destruct (Z.geb_spec (now - lastRefill (state l)) (windowMs (config l)));
      [lia | reflexivity].
Qed.

(** X1: a limiter whose capacity is 0 or less, and that holds no token, never
    grants: every tryConsume of every sequence of calls, at any clock
    readings, is denied. *)
Theorem no_capacity_never_grants (calls : list (op * Z)) (l : t) :
  maxRequests (config l) <= 0 ->
  tokens (state l) <= 0 ->
  grants calls l = O /\ tokens (state (run calls l)) <= 0.
Proof.
  revert l. induction calls as [|[o now] rest IH]; intros l Hc Ht.
  - simpl. split; [reflexivity | exact Ht].
  - assert (Hr : tokens (state (refill now l)) <= 0).
    { unfold refill. destruct (_ >=? _); simpl; lia. }
    assert (Hstep : tokens (state (step o now l)) <= 0).
    { destruct o; simpl; try assumption.
      unfold tryConsume. destruct (Z.gtb_spec (tokens (state (refill now l))) 0);
        simpl; lia. }
    assert (Hcfg : maxRequests (config (step o now l)) <= 0).
    { destruct o; simpl; unfold tryConsume; try destruct (_ >? _); simpl;
        rewrite ?refill_config; assumption. }
    destruct (IH _ Hcfg Hstep) as [IH1 IH2].
    cbn [grants run]. destruct o; try (split; assumption).
    unfold tryConsume at 1.
    destruct (Z.gtb_spec (tokens (state (refill now l))) 0); [lia |].
    split; assumption.
Qed.

Lemma no_capacity_never_grants_witness :
  let calls := [(TryConsume, 0); (GetAvailableTokens, 500); (TryConsume, 1000);
                (TryConsume, 5000)] in
  grants calls (constructor (mkConfig 0 1000) 0) = O /\
  tokens (state (run calls (constructor (mkConfig 0 1000) 0))) <= 0.
Proof.
  intros calls.
  apply (no_capacity_never_grants calls (constructor (mkConfig 0 1000) 0)); simpl; lia.
Defined.

Lemma run_within_window calls : forall T t0 cfg,
  0 <= T ->
  within_window t0 (windowMs cfg) calls ->
  grants calls (mk (mkState T t0) cfg) = Nat.min (attempts calls) (Z.to_nat T) /\
  run calls (mk (mkState T t0) cfg) =
    mk (mkState (T - Z.of_nat (grants calls (mk (mkState T t0) cfg))) t0) cfg.
Proof.
  induction calls as [|[o now] rest IH]; intros T t0 cfg HT Hw.
  - simpl. split; [reflexivity | f_equal; f_equal; lia].
  - inversion Hw as [|c cs Hnow Hrest]; subst. cbn [snd] in Hnow.
    assert (Hrefill : refill now (mk (mkState T t0) cfg) = mk (mkState T t0) cfg)
      by (apply refill_pending; simpl; lia).
    destruct o.
    + cbn [grants run attempts step]. unfold tryConsume. rewrite Hrefill.
      cbn [state tokens lastRefill config fst snd].
      destruct (Z.gtb_spec T 0) as [Hpos|Hzero]; cbn [fst snd].
      * destruct (IH (T - 1) t0 cfg ltac:(lia) Hrest) as [IH1 IH2].
        rewrite IH2, IH1. split; [lia | f_equal; f_equal; lia].
      * destruct (IH T t0 cfg HT Hrest) as [IH1 IH2].
        rewrite IH2, IH1. split; [lia | reflexivity].
    + cbn [grants run attempts step]. unfold getAvailableTokens. rewrite Hrefill.
      cbn [snd]. apply IH; assumption.
    + cbn [grants run attempts step]. apply IH; assumption.
Qed.

(** X2: while no reading reaches the end of the first window, a limiter of
    capacity N >= 0 grants exactly the first N of its tryConsume calls,
    however they are spread over the window and mixed with the two other
    operations: the number of grants is min(attempts, N), and the tokens
    left are N minus the grants. *)
Theorem grants_within_window (N W t0 : Z) (calls : list (op * Z)) :
  0 <= N ->
  within_window t0 W calls ->
  grants calls (constructor (mkConfig N W) t0) = Nat.min (attempts calls) (Z.to_nat N) /\
  tokens (state (run calls (constructor (mkConfig N W) t0))) =
    N - Z.of_nat (grants calls (constructor (mkConfig N W) t0)).
Proof.
  intros HN Hw. unfold constructor. cbn [maxRequests].
  destruct (run_within_window calls N t0 (mkConfig N W) HN Hw) as [H1 H2].
  split; [exact H1 | rewrite H2; reflexivity].
Qed.

Lemma grants_within_window_witness :
  let calls := [(TryConsume, 0); (GetTimeUntilRefill, 100); (TryConsume, 400);
                (GetAvailableTokens, 500); (TryConsume, 999)] in
  grants calls (constructor (mkConfig 2 1000) 0) = 2%nat /\
  tokens (state (run calls (constructor (mkConfig 2 1000) 0))) = 0.
Proof.
  intros calls.
  apply (grants_within_window 2 1000 0 calls); [lia |].
  repeat constructor.
Defined.

(** X3: getAvailableTokens takes no token: at one clock reading, a
    tryConsume after it does what tryConsume alone does, and asking twice
    gives the same number and the same object. *)
Theorem getAvailableTokens_takes_nothing (now : Z) (l : t) :
  tryConsume now (snd (getAvailableTokens now l)) = tryConsume now l /\
  getAvailableTokens now (snd (getAvailableTokens now l)) = getAvailableTokens now l.
Proof.
  unfold getAvailableTokens, tryConsume. cbn [snd].
  rewrite refill_idempotent. split; reflexivity.
Qed.

(** X4: tryConsume is granted exactly when getAvailableTokens, at the same
    reading, is positive; with a window of positive duration a grant lowers
    what getAvailableTokens reports by exactly 1 and a denial leaves it as it
    is. *)
Theorem tryConsume_matches_available (now : Z) (l : t) :
  0 < windowMs (config l) ->
  (fst (tryConsume now l) = true <-> 0 < fst (getAvailableTokens now l)) /\
  fst (getAvailableTokens now (snd (tryConsume now l))) =
    fst (getAvailableTokens now l) - (if fst (tryConsume now l) then 1 else 0).
Proof.
  intros HW. unfold getAvailableTokens, tryConsume. cbn [fst].
  assert (Hagain : forall T,
             refill now (mk (mkState T (lastRefill (state (refill now l))))
                           (config (refill now l))) =
             mk (mkState T (lastRefill (state (refill now l)))) (config (refill now l))).
  { intros T. apply refill_pending. cbn [state lastRefill config].
    rewrite refill_config. unfold refill.
    destruct (Z.geb_spec (now - lastRefill (state l)) (windowMs (config l)));
      cbn [state lastRefill]; lia. }
  destruct (Z.gtb_spec (tokens (state (refill now l))) 0) as [Hpos|Hzero]; cbn [fst snd].
  - rewrite Hagain. cbn [state tokens]. split; [split; [lia | reflexivity] | lia].
  - rewrite refill_idempotent. split; [split; [discriminate | lia] | lia].
Qed.

Lemma tryConsume_matches_available_witness :
  let l := constructor (mkConfig 1 1000) 0 in
  (fst (tryConsume 10 l) = true <-> 0 < fst (getAvailableTokens 10 l)) /\
  fst (getAvailableTokens 10 (snd (tryConsume 10 l))) =
    fst (getAvailableTokens 10 l) - (if fst (tryConsume 10 l) then 1 else 0).
Proof.
  intros l. apply (tryConsume_matches_available 10 l). simpl. lia.
Defined.

(** X5: the value of getTimeUntilRefill is exactly the wait that is left:
    it is 0 exactly when a refill is due, a reading that many milliseconds
    later does refill, and no reading before that does. *)
Theorem getTimeUntilRefill_is_the_wait (now : Z) (l : t) :
  0 <= getTimeUntilRefill now l /\
  (getTimeUntilRefill now l = 0 <-> now - lastRefill (state l) >= windowMs (config l)) /\
  tokens (state (refill (now + getTimeUntilRefill now l) l)) = maxRequests (config l) /\
  lastRefill (state (refill (now + getTimeUntilRefill now l) l)) =
    now + getTimeUntilRefill now l /\
  (forall sooner, sooner < now + getTimeUntilRefill now l ->
     0 < getTimeUntilRefill now l -> refill sooner l = l).
Proof.
  unfold getTimeUntilRefill.
  split; [lia | split; [lia | ]].
  rewrite refill_expired by lia. cbn [state tokens lastRefill].
  split; [reflexivity | split; [reflexivity |]].
  intros sooner Hs Hpos. apply refill_pending. lia.
Qed.

Lemma getTimeUntilRefill_is_the_wait_witness :
  let l := mk (mkState 0 100) (mkConfig 3 1000) in
  getTimeUntilRefill 400 l = 700 /\
  refill 1099 l = l /\
  tokens (state (refill 1100 l)) = 3.
Proof.
  intros l.
  destruct (getTimeUntilRefill_is_the_wait 400 l) as (_ & _ & H3 & _ & H5).
  split; [reflexivity | split].
  - apply H5; vm_compute; reflexivity.
  - exact H3.
Defined.

End TokenBucketRuns.

(** ** Further properties of the token-bucket client *)

Section GeneratorCalls.
Import JokeTypes JokeGenerator.
Local Open Scope string_scope.

Lemma fetches_app a b : fetches (a ++ b) = (fetches a + fetches b)%nat.
Proof.
  induction a as [|[t|u] a IH]; simpl; [reflexivity | exact IH | rewrite IH; reflexivity].
Qed.

Lemma fetchJoke_granted_world env base o w :
  fst (RateLimiter.tryConsume (clock env (ticks w)) (rateLimiter w)) = true ->
  snd (fetchJoke env base o w) =
    mkWorld (snd (RateLimiter.tryConsume (clock env (ticks w)) (rateLimiter w)))
      (S (ticks w))
      ((effects w ++ [DateNow (clock env (ticks w))]) ++ [Fetch (buildUrl base o)]).
Proof.
  intros Hg. rewrite (fetchJoke_granted env base o w Hg). cbv zeta.
  destruct (network env (buildUrl base o)) as [r|response]; [reflexivity|].
  destruct (JS.ok response); cbn [negb]; [|reflexivity].
  destruct (JS.json response) as [r|data]; [reflexivity|].
  destruct (data_error data); reflexivity.
Qed.

Lemma getRandomJoke_world env base o w :
  snd (getRandomJoke env base o w) = snd (fetchJoke env base o w).
Proof.
  unfold getRandomJoke, bind. destruct (fetchJoke env base o w) as [[e|d] w']; reflexivity.
Qed.

Lemma fetch_all_within_window env base calls : forall T t0 cfg ticks0 effects0,
  (0 <= T)%Z ->
  (forall n, (ticks0 <= n)%nat -> (clock env n - t0 < RateLimiter.windowMs cfg)%Z) ->
  let w := fetch_all env base calls
             (mkWorld (RateLimiter.mk (RateLimiter.mkState T t0) cfg) ticks0 effects0) in
  fetches (effects w) = (fetches effects0 + Nat.min (List.length calls) (Z.to_nat T))%nat /\
  RateLimiter.config (rateLimiter w) = cfg.
Proof.
  induction calls as [|o rest IH]; intros T t0 cfg ticks0 effects0 HT Hclock.
  - simpl. split; [lia | reflexivity].
  - cbn [fetch_all List.length].
    set (w0 := mkWorld (RateLimiter.mk (RateLimiter.mkState T t0) cfg) ticks0 effects0).
    assert (Hdec : RateLimiter.tryConsume (clock env (ticks w0)) (rateLimiter w0) =
                   if (T >? 0)%Z
                   then (true, RateLimiter.mk (RateLimiter.mkState (T - 1) t0) cfg)
                   else (false, RateLimiter.mk (RateLimiter.mkState T t0) cfg)).
    { unfold RateLimiter.tryConsume.
      rewrite RateLimiterFacts.refill_pending by (simpl; apply Hclock; lia). reflexivity. }
    destruct (Z.gtb_spec T 0) as [Hpos|Hzero].
    + rewrite fetchJoke_granted_world by (rewrite Hdec; reflexivity).
      rewrite Hdec. cbn [snd].
      destruct (IH (T - 1)%Z t0 cfg (S (ticks w0))
                  ((effects w0 ++ [DateNow (clock env (ticks w0))]) ++
                   [Fetch (buildUrl base o)])%list ltac:(lia)
                  ltac:(intros n Hn; apply Hclock; simpl in *; lia)) as [IH1 IH2].
      split; [|exact IH2].
      rewrite IH1, !fetches_app. subst w0. cbn [effects fetches]. lia.
    + rewrite fetchJoke_denied by (rewrite Hdec; reflexivity).
      cbv zeta. rewrite Hdec. cbn [snd].
      destruct (IH T t0 cfg (S (S (ticks w0)))
                  ((effects w0 ++ [DateNow (clock env (ticks w0))]) ++
                   [DateNow (clock env (S (ticks w0)))])%list HT
                  ltac:(intros n Hn; apply Hclock; simpl in *; lia)) as [IH1 IH2].
      split; [|exact IH2].
      rewrite IH1, !fetches_app. subst w0. cbn [effects fetches]. lia.
Qed.

(** X6: while no clock reading reaches the end of the current window, any
    number of fetchJoke calls, whatever their options and whatever the
    network answers, perform exactly min(calls, tokens) outbound requests:
    never more than the tokens the limiter holds. *)
Theorem outbound_requests_bounded env base (calls : list JokeOptions)
  (T t0 : Z) cfg ticks0 effects0 :
  (0 <= T)%Z ->
  (forall n, (ticks0 <= n)%nat -> (clock env n - t0 < RateLimiter.windowMs cfg)%Z) ->
  fetches (effects (fetch_all env base calls
                      (mkWorld (RateLimiter.mk (RateLimiter.mkState T t0) cfg)
                         ticks0 effects0))) =
    (fetches effects0 + Nat.min (List.length calls) (Z.to_nat T))%nat.
Proof.
  intros HT Hclock.
  apply (fetch_all_within_window env base calls T t0 cfg ticks0 effects0 HT Hclock).
Qed.

Lemma outbound_requests_bounded_witness :
  fetches (effects (fetch_all
                      (mkEnv (fun n => Z.min (Z.of_nat n) 900) (fun _ => inl JS.RejOther))
                      JOKE_API_BASE_URL [no_options; no_options; no_options]
                      (mkWorld (RateLimiter.constructor (RateLimiter.mkConfig 2 1000) 0)
                         0 []))) = 2%nat.
Proof.
  apply (outbound_requests_bounded
           (mkEnv (fun n => Z.min (Z.of_nat n) 900) (fun _ => inl JS.RejOther))
           JOKE_API_BASE_URL [no_options; no_options; no_options]
           2 0 (RateLimiter.mkConfig 2 1000) 0 []).
  - lia.
  - intros n _. cbn [clock RateLimiter.windowMs]. lia.
Defined.



(** X8: what fetchJoke returns is the payload of a granted call whose
    response had a success status, and never a payload whose error field is
    true. *)
Theorem fetchJoke_returns_sound env base o w data :
  fst (fetchJoke env base o w) = inr data ->
  fst (RateLimiter.tryConsume (clock env (ticks w)) (rateLimiter w)) = true /\
  (exists response,
     network env (buildUrl base o) = inr response /\
     JS.ok response = true /\
     JS.json response = inr data) /\
  data_error data = false.
Proof.
  destruct (fst (RateLimiter.tryConsume (clock env (ticks w)) (rateLimiter w))) eqn:Hd.
  - rewrite (fetchJoke_granted env base o w Hd). cbv zeta.
    destruct (network env (buildUrl base o)) as [r|response]; [discriminate|].
    destruct (JS.ok response) eqn:Hok; cbn [negb]; [|discriminate].
    destruct (JS.json response) as [r|d] eqn:Hj; [discriminate|].
    destruct (data_error d) eqn:He; [discriminate|].
    intros H. injection H as <-.
    split; [reflexivity | split; [|exact He]].
    exists response. auto.
  - rewrite (fetchJoke_denied env base o w Hd). discriminate.
Qed.

Lemma fetchJoke_returns_sound_witness :
  data_error (DataBatch false 2 []) = false.
Proof.
  apply (fetchJoke_returns_sound
           (mkEnv (fun _ => 0%Z)
              (fun _ => inr (JS.mkResponse 200 (inr (DataBatch false 2 [])))))
           JOKE_API_BASE_URL no_options
           (mkWorld (RateLimiter.createDefaultRateLimiter 0) 0 [])
           (DataBatch false 2 []) eq_refl).
Defined.

(** X9: the retryAfter of a RateLimitError is a real wait. With a capacity of
    at least 1 and a clock that does not go back, a denied fetchJoke throws a
    RateLimitError whose retryAfter lies between 0 and what was left of the
    window at the denial, is positive when the clock has not moved since the
    denial, and the seconds named in the message are retryAfter rounded up. *)
Theorem retryAfter_bounds env base o w :
  let t1 := clock env (ticks w) in
  let t2 := clock env (S (ticks w)) in
  let l := rateLimiter w in
  fst (RateLimiter.tryConsume t1 l) = false ->
  (1 <= RateLimiter.maxRequests (RateLimiter.config l))%Z ->
  (t1 <= t2)%Z ->
  exists m r,
    fst (fetchJoke env base o w) = inl (RateLimitError m r) /\
    (0 <= r <= RateLimiter.windowMs (RateLimiter.config l) -
              (t1 - RateLimiter.lastRefill (RateLimiter.state l)))%Z /\
    (t2 = t1 -> 0 < r)%Z /\
    (r <= 1000 * ceil_seconds r < r + 1000)%Z /\
    m = "Rate limit exceeded. Please try again in " ++
        JS.toString (ceil_seconds r) ++ " seconds.".
Proof.
  intros t1 t2 l Hd Hcap Hclock.
  rewrite (fetchJoke_denied env base o w Hd). cbv zeta. fold t1 t2 l.
  do 2 eexists. split; [reflexivity|].
  assert (Hpending : (t1 - RateLimiter.lastRefill (RateLimiter.state l) <
                      RateLimiter.windowMs (RateLimiter.config l))%Z).
  { revert Hd. unfold RateLimiter.tryConsume, RateLimiter.refill.
    destruct (Z.geb_spec (t1 - RateLimiter.lastRefill (RateLimiter.state l))
                (RateLimiter.windowMs (RateLimiter.config l))) as [Hge|Hlt];
      [|intros _; exact Hlt].
    cbn [RateLimiter.state RateLimiter.tokens].
    destruct (Z.gtb_spec (RateLimiter.maxRequests (RateLimiter.config l)) 0);
      [discriminate | lia]. }
  assert (Hsame : snd (RateLimiter.tryConsume t1 l) = l).
  { revert Hd. unfold RateLimiter.tryConsume.
    rewrite RateLimiterFacts.refill_pending by exact Hpending.
    destruct (_ >? _)%Z; [discriminate | reflexivity]. }
  rewrite Hsame. unfold RateLimiter.getTimeUntilRefill, ceil_seconds.
  repeat split; try lia.
  - pose proof (Z.div_mod (- Z.max 0 (RateLimiter.windowMs (RateLimiter.config l) -
                                      (t2 - RateLimiter.lastRefill (RateLimiter.state l))))
                  1000 ltac:(lia)).
    pose proof (Z.mod_pos_bound
                  (- Z.max 0 (RateLimiter.windowMs (RateLimiter.config l) -
                              (t2 - RateLimiter.lastRefill (RateLimiter.state l))))
                  1000 ltac:(lia)).
    lia.
  - pose proof (Z.div_mod (- Z.max 0 (RateLimiter.windowMs (RateLimiter.config l) -
                                      (t2 - RateLimiter.lastRefill (RateLimiter.state l))))
                  1000 ltac:(lia)).
    pose proof (Z.mod_pos_bound
                  (- Z.max 0 (RateLimiter.windowMs (RateLimiter.config l) -
                              (t2 - RateLimiter.lastRefill (RateLimiter.state l))))
                  1000 ltac:(lia)).
    lia.
Qed.

Lemma retryAfter_bounds_witness :
  exists m r,
    fst (fetchJoke (mkEnv (fun n => (Z.of_nat n * 100)%Z) (fun _ => inl JS.RejOther))
           JOKE_API_BASE_URL no_options
           (mkWorld (RateLimiter.mk (RateLimiter.mkState 0 0) (RateLimiter.mkConfig 1 1000))
              3 [])) = inl (RateLimitError m r) /\
    (0 <= r <= 1000 - (300 - 0))%Z.
Proof.
  destruct (retryAfter_bounds
              (mkEnv (fun n => (Z.of_nat n * 100)%Z) (fun _ => inl JS.RejOther))
              JOKE_API_BASE_URL no_options
              (mkWorld (RateLimiter.mk (RateLimiter.mkState 0 0) (RateLimiter.mkConfig 1 1000))
                 3 [])
              eq_refl ltac:(simpl; lia) ltac:(simpl; lia))
    as (m & r & H1 & H2 & _).
  exists m, r. split; [exact H1 | exact H2].
Defined.

(** X10: getMultipleJokes makes exactly one fetchJoke call, its world is that
    call's world, and the request always carries the amount parameter, with
    the count clamped to [1, 10] as its value, whatever amount the options
    held; an error of fetchJoke passes unchanged, a batch gives one string
    per joke, and any other payload gives one string. *)
Theorem getMultipleJokes_one_clamped_call env base count o w :
  let amount := Z.max 1 (Z.min 10 count) in
  let call := fetchJoke env base (with_amount o amount) w in
  snd (getMultipleJokes env base count o w) = snd call /\
  URLSearchParams.get "amount" (build_params (with_amount o amount)) =
    Some (JS.toString amount) /\
  (1 <= amount <= 10)%Z /\
  fst (getMultipleJokes env base count o w) =
    match fst call with
    | inl e => inl e
    | inr (DataBatch _ _ jokes) => inr (map (fun j => format (DataJoke j)) jokes)
    | inr d => inr [format d]
    end.
Proof.
  intros amount call. subst call.
  split; [|split; [|split]].
  - unfold getMultipleJokes, bind. fold amount.
    destruct (fetchJoke env base (with_amount o amount) w) as [[e|[e|j|e a js]] w'];
      reflexivity.
  - rewrite generator_amount_param. cbn [with_amount opt_amount].
    destruct (Z.eqb_spec amount 0) as [E|_]; [subst amount; lia|].
    f_equal. f_equal. subst amount. lia.
  - subst amount. lia.
  - unfold getMultipleJokes, bind. fold amount.
    destruct (fetchJoke env base (with_amount o amount) w) as [[e|[e|j|e a js]] w'];
      reflexivity.
Qed.

(** X11: getRateLimitStatus throws nothing, performs no request and takes no
    token: it reports the tokens after the refill check of its first clock
    reading and the wait left at its second one. On a limiter that keeps the
    budget invariant, with a capacity that is not negative, the tokens
    reported lie in [0, maxRequests] and the wait is not negative. *)
Theorem getRateLimitStatus_reads_only env w :
  let t1 := clock env (ticks w) in
  let t2 := clock env (S (ticks w)) in
  let l1 := RateLimiter.refill t1 (rateLimiter w) in
  getRateLimitStatus env w =
    (inr (RateLimiter.tokens (RateLimiter.state l1), RateLimiter.getTimeUntilRefill t2 l1),
     mkWorld l1 (S (S (ticks w))) (effects w ++ [DateNow t1; DateNow t2])) /\
  fetches (effects (snd (getRateLimitStatus env w))) = fetches (effects w) /\
  (0 <= RateLimiter.getTimeUntilRefill t2 l1)%Z /\
  (RateLimiter.budget_ok (rateLimiter w) ->
   (0 <= RateLimiter.maxRequests (RateLimiter.config (rateLimiter w)))%Z ->
   (0 <= RateLimiter.tokens (RateLimiter.state l1) <=
      RateLimiter.maxRequests (RateLimiter.config (rateLimiter w)))%Z).
Proof.
  intros t1 t2 l1.
  assert (Heq : getRateLimitStatus env w =
    (inr (RateLimiter.tokens (RateLimiter.state l1), RateLimiter.getTimeUntilRefill t2 l1),
     mkWorld l1 (S (S (ticks w))) (effects w ++ [DateNow t1; DateNow t2]))).
  { unfold getRateLimitStatus, bind, rateLimiter_getAvailableTokens,
      rateLimiter_getTimeUntilRefill, bind, Date_now, ret,
      RateLimiter.getAvailableTokens.
    cbn [fst snd rateLimiter ticks effects]. rewrite <- app_assoc. reflexivity. }
  split; [exact Heq | split; [|split]].
  - rewrite Heq. cbn [snd effects]. rewrite fetches_app. simpl. lia.
  - unfold RateLimiter.getTimeUntilRefill. lia.
  - intros Hb Hc. pose proof (refill_budget t1 (rateLimiter w) Hc Hb) as Hr.
    unfold RateLimiter.budget_ok in Hr.
    rewrite RateLimiterFacts.refill_config in Hr. exact Hr.
Qed.

Lemma getRateLimitStatus_reads_only_witness :
  (0 <= RateLimiter.tokens
          (RateLimiter.state
             (RateLimiter.refill 0 (RateLimiter.createDefaultRateLimiter 0))) <= 10)%Z.
Proof.
  destruct (getRateLimitStatus_reads_only
              (mkEnv (fun _ => 0%Z) (fun _ => inl JS.RejOther))
              (mkWorld (RateLimiter.createDefaultRateLimiter 0) 0 []))
    as (_ & _ & _ & H).
  apply H.
  - unfold RateLimiter.budget_ok. simpl. lia.
  - simpl. lia.
Defined.

Lemma default_all_created env calls : forall w,
  default_all env calls (mkProcess (Some (rateLimiter w)) (ticks w) (effects w)) =
    let w' := fetch_all env JOKE_API_BASE_URL calls w in
    mkProcess (Some (rateLimiter w')) (ticks w') (effects w').
Proof.
  induction calls as [|o rest IH]; intros w.
  - reflexivity.
  - cbn [default_all fetch_all]. unfold default_getRandomJoke.
    cbn [defaultGenerator p_ticks p_effects snd].
    rewrite getRandomJoke_world.
    replace (mkWorld (rateLimiter w) (ticks w) (effects w)) with w
      by (destruct w; reflexivity).
    apply IH.
Qed.

(** X12: the module-level getRandomJoke constructs its generator once, at the
    first call, with the default limiter of 10 requests per 60000 ms, and
    every later call draws on that same limiter: while no clock reading
    reaches 60000 ms after the first one, any number of calls performs exactly
    min(calls, 10) outbound requests. *)
Theorem default_generator_shares_one_budget env (calls : list JokeOptions) tk es :
  (forall n, (tk <= n)%nat -> (clock env n - clock env tk < 60000)%Z) ->
  let p := default_all env calls (mkProcess None tk es) in
  fetches (p_effects p) = (fetches es + Nat.min (List.length calls) 10)%nat /\
  (calls <> [] ->
   exists l, defaultGenerator p = Some l /\
             RateLimiter.config l = RateLimiter.mkConfig 10 60000).
Proof.
  intros Hclock. destruct calls as [|o rest].
  - simpl. split; [lia | intros H; contradiction H; reflexivity].
  - assert (Hp : default_all env (o :: rest) (mkProcess None tk es) =
                 let w' := fetch_all env JOKE_API_BASE_URL (o :: rest)
                             (createJokeGenerator env tk es) in
                 mkProcess (Some (rateLimiter w')) (ticks w') (effects w')).
    { cbn [default_all fetch_all]. unfold default_getRandomJoke.
      cbn [defaultGenerator p_ticks p_effects snd].
      rewrite getRandomJoke_world. apply default_all_created. }
    rewrite Hp. cbv zeta.
    unfold createJokeGenerator, RateLimiter.createDefaultRateLimiter, RateLimiter.constructor.
    cbn [RateLimiter.maxRequests p_effects defaultGenerator].
    destruct (fetch_all_within_window env JOKE_API_BASE_URL (o :: rest) 10 (clock env tk)
                (RateLimiter.mkConfig 10 (60 * 1000)) (S tk) (es ++ [DateNow (clock env tk)])
                ltac:(lia)
                ltac:(intros n Hn; cbn [RateLimiter.windowMs]; apply Hclock; lia))
      as [H1 H2].
    split.
    + rewrite H1, fetches_app. simpl. lia.
    + intros _. eexists. split; [reflexivity | exact H2].
Qed.

Lemma default_generator_shares_one_budget_witness :
  fetches (p_effects
             (default_all (mkEnv (fun _ => 7%Z) (fun _ => inl JS.RejOther))
                (repeat no_options 12) (mkProcess None 0 []))) = 10%nat.
Proof.
  apply (default_generator_shares_one_budget
           (mkEnv (fun _ => 7%Z) (fun _ => inl JS.RejOther))
           (repeat no_options 12) 0 []).
  intros n _. simpl. lia.
Defined.

End GeneratorCalls.

(** ** Further properties of the two URL builders *)

Module QueryFacts.
Import Query URLSearchParams.
Local Open Scope string_scope.

Lemma count_char_app c a b :
  count_char c (a ++ b) = (count_char c a + count_char c b)%nat.
Proof.
  induction a as [|x a IH]; simpl; [reflexivity|].
  destruct (Ascii.eqb x c); rewrite IH; reflexivity.
Qed.

Lemma encode_byte_no_amp b : count_char "&"%char (encode_byte b) = O.
Proof. destruct b as [[] [] [] [] [] [] [] []]; reflexivity. Qed.

Lemma encode_byte_no_eq b : count_char "="%char (encode_byte b) = O.
Proof. destruct b as [[] [] [] [] [] [] [] []]; reflexivity. Qed.

Lemma encode_byte_no_hash b : count_char "#"%char (encode_byte b) = O.
Proof. destruct b as [[] [] [] [] [] [] [] []]; reflexivity. Qed.

Lemma encode_no c :
  (forall b, count_char c (encode_byte b) = O) ->
  forall s, count_char c (encode s) = O.
Proof.
  intros H s. induction s as [|b s IH]; simpl; [reflexivity|].
  rewrite count_char_app, H, IH. reflexivity.
Qed.

Lemma pair_count c (kv : string * string) :
  (forall b, count_char c (encode_byte b) = O) ->
  count_char c (encode (fst kv) ++ "=" ++ encode (snd kv)) = count_char c "=".
Proof.
  intros H. rewrite !count_char_app, !encode_no by exact H. lia.
Qed.

Lemma toString_separators p :
  count_char "&"%char (toString p) = pred (List.length p) /\
  count_char "="%char (toString p) = List.length p /\
  count_char "#"%char (toString p) = O.
Proof.
  unfold toString. induction p as [|kv [|kv' p] IH].
  - repeat split.
  - cbn [map String.concat List.length pred].
    rewrite !pair_count by auto using encode_byte_no_amp, encode_byte_no_eq,
      encode_byte_no_hash.
    repeat split.
  - destruct IH as (IH1 & IH2 & IH3).
    change (String.concat "&" (map (fun kv0 => encode (fst kv0) ++ "=" ++ encode (snd kv0))
                                 (kv :: kv' :: p)))
      with ((encode (fst kv) ++ "=" ++ encode (snd kv)) ++ "&" ++
            String.concat "&" (map (fun kv0 => encode (fst kv0) ++ "=" ++ encode (snd kv0))
                                 (kv' :: p))).
    rewrite !(count_char_app _ (encode (fst kv) ++ "=" ++ encode (snd kv))).
    rewrite !(count_char_app _ "&"%string).
    rewrite !pair_count by auto using encode_byte_no_amp, encode_byte_no_eq,
      encode_byte_no_hash.
    rewrite IH1, IH2, IH3. cbn [List.length pred count_char Ascii.eqb Bool.eqb].
    repeat split; lia.
Qed.

End QueryFacts.

Section UrlExtras.
Import JokeTypes URLFacts Query.
Local Open Scope string_scope.

(** X13: no option value can add or cut a parameter of the query string. In
    both builders the query string holds one [=] per emitted parameter, one
    [&] between two parameters and no [#], whatever characters the language,
    search string and other values contain. *)
Theorem query_string_is_well_formed :
  (forall o : JokeApiClient.JokeFetchOptions,
     let p := JokeApiClient.build_params o in
     count_char "&"%char (URLSearchParams.toString p) = pred (List.length p) /\
     count_char "="%char (URLSearchParams.toString p) = List.length p /\
     count_char "#"%char (URLSearchParams.toString p) = O) /\
  (forall o : JokeGenerator.JokeOptions,
     let p := JokeGenerator.build_params o in
     count_char "&"%char (URLSearchParams.toString p) = pred (List.length p) /\
     count_char "="%char (URLSearchParams.toString p) = List.length p /\
     count_char "#"%char (URLSearchParams.toString p) = O).
Proof.
  split; intros o p; apply QueryFacts.toString_separators.
Qed.

(** X14: JokeApiClient.buildUrl emits each parameter at most once and in
    the order lang, blacklistFlags, type, contains, amount; lang and contains
    carry the option's string when it is not empty, type carries the type's
    name, and blacklistFlags carries the flags joined by commas when the list
    is not empty. *)
Theorem client_parameters (o : JokeApiClient.JokeFetchOptions) :
  let p := JokeApiClient.build_params o in
  subsequence (map fst p) ["lang"; "blacklistFlags"; "type"; "contains"; "amount"] = true /\
  URLSearchParams.get "lang" p =
    match JokeApiClient.opt_lang o with
    | Some (String c s) => Some (String c s)
    | _ => None
    end /\
  URLSearchParams.get "contains" p =
    match JokeApiClient.opt_contains o with
    | Some (String c s) => Some (String c s)
    | _ => None
    end /\
  URLSearchParams.get "type" p = option_map JokeType_string (JokeApiClient.opt_type o) /\
  URLSearchParams.get "blacklistFlags" p =
    match JokeApiClient.opt_blacklistFlags o with
    | Some (k :: fl) => Some (JS.join "," (map JokeFlagKey_string (k :: fl)))
    | _ => None
    end.
Proof.
  destruct o as [c l b t s a tm]. unfold JokeApiClient.build_params.
  cbn [JokeApiClient.opt_lang JokeApiClient.opt_blacklistFlags JokeApiClient.opt_type
       JokeApiClient.opt_contains JokeApiClient.opt_amount].
  destruct a as [a|];
    [destruct (negb (a =? 0) && (a >? 1) && (a <=? 10))%Z|].
  all: destruct l as [[|lc l]|], b as [[|k fl]|], t as [[]|], s as [[|sc s]|].
  all: cbv zeta; repeat split; reflexivity.
Qed.

(** X15: JokeGenerator.buildUrl emits each parameter at most once and in
    the order blacklistFlags, type, contains, lang, amount, safe-mode; the
    search string is sent as contains and the language as lang when they are
    not empty, type carries the type's name, and blacklistFlags carries the
    flags joined by commas when the list is not empty. *)
Theorem generator_parameters (o : JokeGenerator.JokeOptions) :
  let p := JokeGenerator.build_params o in
  subsequence (map fst p)
    ["blacklistFlags"; "type"; "contains"; "lang"; "amount"; "safe-mode"] = true /\
  URLSearchParams.get "lang" p =
    match JokeGenerator.opt_lang o with
    | Some (String c s) => Some (String c s)
    | _ => None
    end /\
  URLSearchParams.get "contains" p =
    match JokeGenerator.opt_searchString o with
    | Some (String c s) => Some (String c s)
    | _ => None
    end /\
  URLSearchParams.get "type" p = option_map JokeType_string (JokeGenerator.opt_type o) /\
  URLSearchParams.get "blacklistFlags" p =
    match JokeGenerator.opt_blacklistFlags o with
    | Some (k :: fl) => Some (JS.join "," (map JokeFlagKey_string (k :: fl)))
    | _ => None
    end.
Proof.
  destruct o as [c b t s l a]. unfold JokeGenerator.build_params.
  cbn [JokeGenerator.opt_lang JokeGenerator.opt_blacklistFlags JokeGenerator.opt_type
       JokeGenerator.opt_searchString JokeGenerator.opt_amount].
  destruct a as [a|]; [destruct (a =? 0)%Z|]; cbn [negb].
  all: destruct l as [[|lc l]|], b as [[|k fl]|], t as [[]|], s as [[|sc s]|].
  all: cbv zeta; repeat split; reflexivity.
Qed.

End UrlExtras.

(** ** Further properties of the scheduler-backed client *)

Section ClientExtras.
Import JokeTypes JokeApiClient.
Local Open Scope string_scope.

(** The two ways [parseResponse] can end, read backwards. *)
Lemma parseResponse_cases (response : JS.Response Data) :
  (forall data,
     parseResponse response = inr data ->
     JS.ok response = true /\ JS.json response = inr data /\ data_error data = false) /\
  (forall e,
     parseResponse response = inl e ->
     (exists m c cb, e = JokeApiClientError m c cb) \/
     (exists r, e = Raw r /\ JS.ok response = true /\ JS.json response = inl r)).
Proof.
  unfold parseResponse.
  destruct (JS.ok response) eqn:Hok; cbn [negb].
  - destruct (JS.json response) as [r|d] eqn:Hj.
    + split; [discriminate|].
      intros e H. injection H as <-. right. exists r. auto.
    + destruct (data_error d) eqn:He.
      * split; [discriminate|].
        intros e H. injection H as <-. left. do 3 eexists. reflexivity.
      * split; [|discriminate].
        intros data H. injection H as <-. auto.
  - split; [discriminate|].
    intros e H. injection H as <-. left. do 3 eexists. reflexivity.
Qed.

(** X16: parseResponse returns a payload only for a success status, and
    never one whose error field is true; what it throws is a
    JokeApiClientError or the rejection of response.json() as it is, never a
    JokeApiTimeoutError. *)
Theorem parseResponse_sound (response : JS.Response Data) :
  (forall data,
     parseResponse response = inr data ->
     JS.ok response = true /\ JS.json response = inr data /\ data_error data = false) /\
  (forall e,
     parseResponse response = inl e ->
     (exists m c cb, e = JokeApiClientError m c cb) \/
     (exists r, e = Raw r /\ JS.ok response = true /\ JS.json response = inl r)).
Proof. exact (parseResponse_cases response). Qed.

Lemma parseResponse_sound_witness :
  JS.ok (JS.mkResponse 200 (inr (DataJokes []))) = true /\
  JS.json (JS.mkResponse 200 (inr (DataJokes []))) = inr (DataJokes []) /\
  data_error (DataJokes []) = false.
Proof.
  apply (proj1 (parseResponse_sound (JS.mkResponse 200 (inr (DataJokes []))))
           (DataJokes []) eq_refl).
Defined.

(** X17: the timeout a job runs under is never 0: a timeout option of 0 (or
    none) falls back to the client's default, and a default of 0 (or none)
    in the configuration falls back to 5000; any other timeout option is
    used as it is. *)
Theorem getJoke_timeout_never_zero (config : JokeGeneratorConfig)
  (options : JokeFetchOptions) :
  let client := constructor config in
  getJoke_timeout client options <> 0%Z /\
  defaultTimeout client <> 0%Z /\
  (forall t, opt_timeout options = Some t -> t <> 0%Z ->
     getJoke_timeout client options = t) /\
  (opt_timeout options = None \/ opt_timeout options = Some 0%Z ->
     getJoke_timeout client options = defaultTimeout client) /\
  (cfg_defaultTimeout config = None \/ cfg_defaultTimeout config = Some 0%Z ->
     defaultTimeout client = 5000%Z).
Proof.
  intros client.
  assert (Hd : defaultTimeout client <> 0%Z).
  { subst client. unfold constructor, num_or. cbn [defaultTimeout].
    destruct (cfg_defaultTimeout config) as [z|]; [|discriminate].
    destruct (Z.eqb_spec z 0); [discriminate | assumption]. }
  unfold getJoke_timeout, num_or.
  split; [|split; [exact Hd | split; [|split]]].
  - destruct (opt_timeout options) as [z|]; [|exact Hd].
    destruct (Z.eqb_spec z 0); [exact Hd | assumption].
  - intros t Ht Hnz. rewrite Ht. destruct (Z.eqb_spec t 0); [contradiction | reflexivity].
  - intros [H|H]; rewrite H; reflexivity.
  - intros [H|H]; subst client; unfold constructor, num_or; cbn [defaultTimeout];
      rewrite H; reflexivity.
Qed.

Lemma getJoke_timeout_never_zero_witness :
  getJoke_timeout (constructor (mkConfig None (Some 0%Z) None))
    (mkOptions None None None None None None (Some 250%Z)) = 250%Z /\
  getJoke_timeout (constructor (mkConfig None (Some 0%Z) None))
    (mkOptions None None None None None None (Some 0%Z)) = 5000%Z.
Proof.
  split.
  - apply (proj1 (proj2 (proj2 (getJoke_timeout_never_zero
             (mkConfig None (Some 0%Z) None)
             (mkOptions None None None None None None (Some 250%Z)))))
             250%Z eq_refl).
    discriminate.
  - destruct (getJoke_timeout_never_zero (mkConfig None (Some 0%Z) None)
                (mkOptions None None None None None None (Some 0%Z)))
      as (_ & _ & _ & H4 & H5).
    rewrite H4 by (right; reflexivity). apply H5. right. reflexivity.
Defined.




(** X19: getProgrammingJoke asks for the Programming category and, when safe,
    blacklists every key of JokeFlags, each once; without safe it sends no
    parameter at all. getRandomJoke asks for the URL that no options give. *)
Theorem convenience_requests (base : string) :
  (exists fl,
     opt_blacklistFlags (getProgrammingJoke_options true) = Some fl /\
     (forall k : JokeFlagKey, In k fl) /\ NoDup fl) /\
  buildUrl base (getProgrammingJoke_options true) =
    base ++ "/joke/Programming?blacklistFlags=" ++
    "nsfw%2Creligious%2Cpolitical%2Cracist%2Csexist%2Cexplicit" /\
  buildUrl base (getProgrammingJoke_options false) = base ++ "/joke/Programming" /\
  buildUrl base getRandomJoke_options = base ++ "/joke/Any" /\
  buildUrl base getRandomJoke_options = buildUrl base no_options.
Proof.
  split; [|repeat split; reflexivity].
  eexists. split; [reflexivity | split].
  - intros k. destruct k; simpl; auto 10.
  - repeat constructor; simpl; intuition discriminate.
Qed.



(** X21: getAvailableCategories lists every JokeCategory exactly once, and
    each listed category, given as the category option, is the path segment
    of the URL under its own name. *)
Theorem available_categories_complete :
  (forall c : JokeCategory, In c getAvailableCategories) /\
  NoDup getAvailableCategories /\
  (forall c l b t s a tm,
     categories_segment (mkOptions (Some (inl c)) l b t s a tm) = JokeCategory_string c) /\
  (forall c l b t s a tm,
     categories_segment (mkOptions (Some (inr [c])) l b t s a tm) = JokeCategory_string c).
Proof.
  split; [|split; [|split]].
  - intros c. destruct c; simpl; auto 10.
  - repeat constructor; simpl; intuition discriminate.
  - intros c l b t s a tm. destruct c; reflexivity.
  - intros c l b t s a tm. reflexivity.
Qed.

End ClientExtras.
